(** * Solar-system Shapiro delay

    A shallow embedding of [pint/models/solar_system_shapiro.py]: the
    [PLANET_SHAPIRO] parameter with its parse and print functions, the static
    method [ss_obj_shapiro_delay] and the delay function
    [solar_system_shapiro_delay] of the class [SolarSystemShapiro]; and of
    the layout of the window of [pint/scripts/pintk.py], the methods
    [updateLayout] and [toggle] of the class [PINTk].

    Conventions of the embedding.
    - A finite floating-point number is idealised by the real number it
      stands for (type [R], no rounding, no overflow); a non-finite one
      (an infinity or a NaN) is [NonFinite].  In this exact arithmetic
      [numpy.log] is the only operation of the module that makes a non-finite
      number out of finite ones.
    - What rounding and overflow make of one row is given by a second
      embedding of the same arithmetic on binary64 floats
      ([shapiro_row_f64]).
    - A numpy array of shape (n,) is a list; one of shape (n,3) is a list of
      triples.
    - An astropy [Quantity] is a value together with its unit; a unit is given
      by its size in SI base units, a positive real.
    - A Python exception is a [Raise] result; the log of [astropy.log] and the
      model instance [self] form the state that the delay function threads. *)

From Stdlib Require Import Floats.
From Stdlib Require Import Reals Lra Lia String Ascii.
From stdpp Require Import gmap strings list.

Open Scope string_scope.

(** ** Python strings *)

(** [str.upper] on a byte string: the letters a-z are mapped to A-Z, every
    other byte is kept. *)
Definition upper_ascii (c : ascii) : ascii :=
  let n := nat_of_ascii c in
  if (97 <=? n)%nat && (n <=? 122)%nat then ascii_of_nat (n - 32) else c.

Fixpoint upper (s : string) : string :=
  match s with
  | EmptyString => EmptyString
  | String c s' => String (upper_ascii c) (upper s')
  end.

(** ** The parameter of the component *)

(** The fields the class [Parameter] is constructed with in [__init__]
    ([Parameter] is a reserved word here). *)
Record ModelParameter := mkParameter {
  name : string;
  units : option string;
  value : bool;
  continuous : bool;
  description : string;
  parse_value : string -> bool;
  print_value : bool -> string
}.

Definition PLANET_SHAPIRO : ModelParameter := {|
  name := "PLANET_SHAPIRO";
  units := None;
  value := true;
  continuous := false;
  description := "Include planetary Shapiro delays (Y/N)";
  parse_value := fun x => String.eqb (upper x) "Y";
  print_value := fun x => if x then "Y" else "N"
|}.

(** ** Exceptions *)

Inductive exn :=
| KeyError (k : string)
| IndexError
| ValueError.

Inductive result (A : Type) :=
| Ok (a : A)
| Raise (e : exn).
Arguments Ok {A} a.
Arguments Raise {A} e.

Definition rbind {A B} (r : result A) (k : A -> result B) : result B :=
  match r with
  | Ok a => k a
  | Raise e => Raise e
  end.

Notation "x <- r ;; k" := (rbind r (fun x => k))
  (at level 100, r at next level, right associativity) : stdpp_scope.

(** ** Numbers, arrays and quantities *)

Inductive num :=
| Finite (x : R)
| NonFinite.

(** Addition of two floats; a non-finite operand gives a non-finite sum. *)
Definition nadd (a b : num) : num :=
  match a, b with
  | Finite x, Finite y => Finite (x + y)
  | _, _ => NonFinite
  end.

(** Product of a finite float and a float. *)
Definition nscale (c : R) (a : num) : num :=
  match a with
  | Finite x => Finite (c * x)
  | NonFinite => NonFinite
  end.

(** [numpy.log]: minus infinity at zero and NaN below it. *)
Definition np_log (x : R) : num :=
  if Rlt_dec 0 x then Finite (ln x) else NonFinite.

Definition vec3 : Type := R * R * R.

(** [a ** 2] and [a * b] on rows, and [numpy.sum(a, axis=1)]. *)
Definition vsquare (a : vec3) : vec3 :=
  let '(x, y, z) := a in ((x ^ 2)%R, (y ^ 2)%R, (z ^ 2)%R).

Definition vmul (a b : vec3) : vec3 :=
  let '(x, y, z) := a in
  let '(x', y', z') := b in ((x * x')%R, (y * y')%R, (z * z')%R).

Definition sum_axis1 (a : list vec3) : list R :=
  map (fun row : vec3 => let '(x, y, z) := row in (x + y + z)%R) a.

(** Broadcasting of a binary operation along the first axis: equal lengths
    are combined element by element, a length of one is stretched, anything
    else is numpy's "operands could not be broadcast together". *)
Definition broadcast {A B C} (f : A -> B -> C) (a : list A) (b : list B)
  : result (list C) :=
  if decide (length a = length b) then Ok (zip_with f a b)
  else match a, b with
       | [x], _ => Ok (map (f x) b)
       | _, [y] => Ok (map (fun x => f x y) a)
       | _, _ => Raise ValueError
       end.

Record Quantity (A : Type) := mkQuantity {
  qvalue : A;
  qunit : posreal
}.
Arguments mkQuantity {A} qvalue qunit.
Arguments qvalue {A} q.
Arguments qunit {A} q.

Definition metre : posreal := mkposreal 1 Rlt_0_1.

(** The unit of a quotient. *)
Definition unit_div (u v : posreal) : posreal :=
  mkposreal (u / v) (Rdiv_lt_0_compat u v (cond_pos u) (cond_pos v)).

(** [astropy.constants.au], the astronomical unit, in metres. *)
Definition au : Quantity R := mkQuantity 149597870700%R metre.

(** [q / c] for an array quantity [q] and a scalar quantity [c]. *)
Definition qdiv (q : Quantity (list R)) (c : Quantity R) : Quantity (list R) :=
  mkQuantity (map (fun v => (v / qvalue c)%R) (qvalue q)) (unit_div (qunit q) (qunit c)).

(** [numpy.log(q).value] for a dimensionless quantity [q]: astropy converts
    [q] to the unscaled dimensionless unit before it takes the logarithm. *)
Definition numpy_log_value (q : Quantity (list R)) : list num :=
  map (fun v => np_log (v * qunit q)) (qvalue q).

(** ** The Shapiro delay of one object *)

(** [obj_pos] is a quantity of shape (n,3), [psr_dir] an array of shape
    (n,3) of pure numbers and [T_obj] a float.  [r] is given the unit of [obj_pos] by the
    source; [rcostheta], the sum of a quantity, is taken to keep that unit
    (otherwise the subtraction would be refused by astropy). *)
Definition ss_obj_shapiro_delay (obj_pos : Quantity (list vec3)) (psr_dir : list vec3)
    (T_obj : R) : result (list num) :=
  let r := mkQuantity (map sqrt (sum_axis1 (map vsquare (qvalue obj_pos)))) (qunit obj_pos) in
  prod <- broadcast vmul (qvalue obj_pos) psr_dir ;;
  let rcostheta := mkQuantity (sum_axis1 prod) (qunit obj_pos) in
  diff <- broadcast Rminus (qvalue r) (qvalue rcostheta) ;;
  Ok (map (nscale (-2 * T_obj)) (numpy_log_value (qdiv (mkQuantity diff (qunit r)) au))).

(** The formula in the words of the specification: [r] is the Euclidean norm
    of the position vector, [rcostheta] its dot product with the direction,
    both lengths in metres, and the delay is
    [-2 * T * ln ((r - rcostheta) / one_astronomical_unit)]. *)
Definition euclidean_norm (p : vec3) : R :=
  let '(x, y, z) := p in sqrt (x * x + y * y + z * z).

Definition dot_product (p d : vec3) : R :=
  let '(x, y, z) := p in
  let '(x', y', z') := d in (x * x' + y * y' + z * z')%R.

Definition one_astronomical_unit : R := 149597870700%R.

(** [r - rcostheta] in metres, for a position given in the unit [u]. *)
Definition impact_length (u : posreal) (p d : vec3) : R :=
  (u * euclidean_norm p - u * dot_product p d)%R.

Definition shapiro_formula (u : posreal) (p d : vec3) (T : R) : num :=
  nscale (-2 * T) (np_log (impact_length u p d / one_astronomical_unit)).

(** ** One row in binary64 *)

(** The arithmetic of [ss_obj_shapiro_delay] on one row in IEEE 754 binary64,
    for a position in metres: every operation rounds to nearest and
    overflows to an infinity as the processor does. *)
Definition vec3_f64 : Type := float * float * float.

(** [const.au.value] *)
Definition au_f64 : float := 149597870700%float.

(** The argument of the logarithm: [(r - rcostheta) / const.au], the sums
    along the row taken from left to right. *)
Definition log_argument_f64 (p d : vec3_f64) : float :=
  let '(x, y, z) := p in
  let '(x', y', z') := d in
  let r := PrimFloat.sqrt (x * x + y * y + z * z)%float in
  let rcostheta := (x * x' + y * y' + z * z')%float in
  ((r - rcostheta) / au_f64)%float.

(** [numpy.log] of a binary64 number.  IEEE 754 fixes the result at the
    special values: plus infinity at plus infinity, minus infinity at a
    zero, NaN at a negative number and at a NaN.  At a positive finite
    number the result is the finite number that the C library computes; it
    is not computed here and stays [LogOf a]. *)
Inductive log_f64 :=
| LogIs (l : float)
| LogOf (a : float).

Definition np_log_f64 (a : float) : log_f64 :=
  match classify a with
  | PNormal | PSubn => LogOf a
  | PInf => LogIs infinity
  | PZero | NZero => LogIs neg_infinity
  | NInf | NNormal | NSubn | NaN => LogIs nan
  end.

(** The delay of the row, [-2.0 * T_obj * numpy.log(...)]: a float where the
    logarithm is a special value, and otherwise the product of
    [c = -2.0 * T_obj] and the logarithm of [a]. *)
Inductive delay_f64 :=
| DelayIs (x : float)
| DelayTimesLog (c a : float).

Definition shapiro_row_f64 (p d : vec3_f64) (T_obj : float) : delay_f64 :=
  let c := (-2 * T_obj)%float in
  match np_log_f64 (log_argument_f64 p d) with
  | LogIs l => DelayIs (c * l)%float
  | LogOf a => DelayTimesLog c a
  end.



(** A position scaled by a factor. *)
Definition vscale (k : R) (p : vec3) : vec3 :=
  let '(x, y, z) := p in ((k * x)%R, (k * y)%R, (k * z)%R).

(** ** The state of a call: the model instance and the log *)

Record LogRecord := mkLogRecord {
  levelname : string;
  message : string
}.

Record State := mkState {
  self_PLANET_SHAPIRO : ModelParameter;
  log_records : list LogRecord
}.

Definition M (A : Type) : Type := State -> result A * State.

Definition mpure {A} (a : A) : M A := fun s => (Ok a, s).

Definition mlift {A} (r : result A) : M A := fun s => (r, s).

Definition sbind {A B} (m : M A) (k : A -> M B) : M B :=
  fun s =>
    match m s with
    | (Ok a, s') => k a s'
    | (Raise e, s') => (Raise e, s')
    end.

Notation "x <~ m ;; k" := (sbind m (fun x => k))
  (at level 100, m at next level, right associativity) : stdpp_scope.

(** [log.info(msg)] *)
Definition log_info (msg : string) : M unit :=
  fun s => (Ok tt, mkState (self_PLANET_SHAPIRO s) (log_records s ++ [mkLogRecord "INFO" msg])%list).

(** [self.PLANET_SHAPIRO.value] *)
Definition read_PLANET_SHAPIRO : M bool :=
  fun s => (Ok (value (self_PLANET_SHAPIRO s)), s).

(** ** The observation table and its groups *)

(** The astropy table of the TOAs, grouped by observatory: the column
    [tdbld], the position columns [obs_<body>_pos] by name (each a quantity
    of shape (n,3)), the [obs] value of every group key and the array of
    group boundaries. *)
Record Table := mkTable {
  tdbld : list R;
  columns : gmap string (Quantity (list vec3));
  groups_keys : list string;
  groups_indices : list nat
}.

(** [len(toas)] *)
Definition len (toas : Table) : nat := length (tdbld toas).

(** The slice [l[lo:hi]] for non-negative bounds. *)
Definition py_slice {A} (lo hi : nat) (l : list A) : list A :=
  take (hi - lo) (drop lo l).

(** A group of the table: the rows of one observatory. *)
Record Group := mkGroup {
  g_tdbld : list R;
  g_columns : gmap string (Quantity (list vec3))
}.

(** [toas[i0:i1]]: the rows [i0..i1) of every column. *)
Definition table_rows (toas : Table) (i0 i1 : nat) : Group :=
  mkGroup (py_slice i0 i1 (tdbld toas))
    ((fun c => mkQuantity (py_slice i0 i1 (qvalue c)) (qunit c)) <$> columns toas).

(** [toas.groups[ii]]: the rows [indices[ii]:indices[ii+1]] of the table. *)
Definition groups_getitem (toas : Table) (ii : nat) : result Group :=
  match groups_indices toas !! ii, groups_indices toas !! (S ii) with
  | Some i0, Some i1 => Ok (table_rows toas i0 i1)
  | _, _ => Raise IndexError
  end.

(** [grp[field]] *)
Definition getitem (grp : Group) (field : string) : result (Quantity (list vec3)) :=
  match g_columns grp !! field with
  | Some c => Ok c
  | None => Raise (KeyError field)
  end.

(** [a, b = l] *)
Definition unpack2 (l : list nat) : result (nat * nat) :=
  match l with
  | [a; b] => Ok (a, b)
  | _ => Raise ValueError
  end.

(** [delay[lo:hi] += x]: [x] has the length of the slice or the length one. *)
Definition slice_iadd (delay : list num) (lo hi : nat) (x : list num) : result (list num) :=
  let view := py_slice lo hi delay in
  new <- (if decide (length x = length view) then Ok (zip_with nadd view x)
          else match x with
               | [a] => Ok (map (fun v => nadd v a) view)
               | _ => Raise ValueError
               end) ;;
  Ok (take lo delay ++ new ++ drop (lo + length view) delay)%list.

(** [x.astype(numpy.float64)]: the identity on idealised floats. *)
Definition astype_float64 (x : list R) : list R := x.

(** The table with other position columns. *)
Definition with_columns (toas : Table) (cols : gmap string (Quantity (list vec3))) : Table :=
  mkTable (tdbld toas) cols (groups_keys toas) (groups_indices toas).

(** ** The window of [pint/scripts/pintk.py] *)

(** The part of a [PINTk] instance that [updateLayout] and [toggle] read and
    write: the dictionary [self.active] with the value of each [IntVar], in
    the order of its keys; the widgets of [self.mainFrame] that the grid
    manages, by their key in [self.widgets], with their cell (row, column);
    and the rows and columns of [self.mainFrame] configured with weight one.
    Both dictionaries are built by [createWidgets] with the same keys. *)
Record PINTk := mkPINTk {
  active : list (string * Z);
  gridded : gmap string (nat * nat);
  row_weights : gset nat;
  column_weights : gset nat
}.

(** [self.maxcols = 2] in [__init__]. *)
Definition maxcols : nat := 2.

(** The cell of the widget that is made visible after [visible] others:
    [int(visible / self.maxcols)] and [visible % self.maxcols]; the float
    quotient cut to an integer is the integer quotient. *)
Definition cell_of (visible : nat) : nat * nat :=
  (visible / maxcols, visible mod maxcols).

(** The loop of [updateLayout] over the items of [self.active], from the
    count [visible] on: a widget whose variable is not zero is put on the
    grid and its row and column get the weight one. *)
Fixpoint layout_loop (items : list (string * Z)) (visible : nat) (g : PINTk) : PINTk :=
  match items with
  | [] => g
  | (key, var) :: rest =>
      if Z.eqb var 0 then layout_loop rest visible g
      else
        let '(row, col) := cell_of visible in
        layout_loop rest (S visible)
          (mkPINTk (active g) (<[key := (row, col)]> (gridded g))
             ({[row]} ∪ row_weights g) ({[col]} ∪ column_weights g))
  end.

(** [updateLayout]: every child of the main frame leaves the grid, then the
    loop puts the visible ones back. *)
Definition updateLayout (g : PINTk) : PINTk :=
  layout_loop (active g) 0 (mkPINTk (active g) ∅ (row_weights g) (column_weights g)).

(** [self.active[key]] and [self.active[key].set(v)]. *)
Fixpoint dict_get (key : string) (d : list (string * Z)) : option Z :=
  match d with
  | [] => None
  | (k, v) :: rest => if String.eqb k key then Some v else dict_get key rest
  end.

Fixpoint dict_set (key : string) (v : Z) (d : list (string * Z)) : list (string * Z) :=
  match d with
  | [] => []
  | (k, v') :: rest =>
      if String.eqb k key then (k, v) :: rest else (k, v') :: dict_set key v rest
  end.

(** [toggle(key)] *)
Definition toggle (key : string) (g : PINTk) : result PINTk :=
  match dict_get key (active g) with
  | None => Raise (KeyError key)
  | Some v =>
      Ok (updateLayout
            (mkPINTk (dict_set key ((v + 1) mod 2)%Z (active g)) (gridded g)
               (row_weights g) (column_weights g)))
  end.

(** The keys of the visible widgets, in the order of the dictionary. *)
Definition visible_keys (items : list (string * Z)) : list string :=
  map fst (List.filter (fun item : string * Z => negb (Z.eqb item.2 0)) items).

(** ** A small table for the examples *)

(** Two observations, the first of the barycentric observatory and the second
    of the observatory "gbt", with the position columns of the Sun and of the
    four planets of the planetary term. *)
Definition example_column : Quantity (list vec3) :=
  mkQuantity [(0, 1, 0)%R; (0, 2, 0)%R] metre.

Definition example_toas : Table :=
  mkTable [0%R; 1%R]
    (<["obs_sun_pos" := example_column]>
       (<["obs_jupiter_pos" := example_column]>
          (<["obs_saturn_pos" := example_column]>
             (<["obs_venus_pos" := example_column]>
                (<["obs_uranus_pos" := example_column]> ∅)))))
    ["Barycenter"; "gbt"] [0; 1; 2].

(** The same table after [compute_posvels(planets=False)]: only the Sun. *)
Definition example_sun_only : Table :=
  with_columns example_toas (<["obs_sun_pos" := example_column]> ∅).

Definition example_provider (epoch : list R) : list vec3 :=
  map (fun _ => (1, 0, 0)%R) epoch.

Definition example_state : State := mkState PLANET_SHAPIRO [].

Section SolarSystemShapiro.

(** The method [ssb_to_psb_xyz] of the astrometry component of the model:
    the unit vectors towards the pulsar at the given epochs. *)
Variable ssb_to_psb_xyz : list R -> list vec3.

(** The masses of [pint/__init__.py], as [.value] gives them (seconds). *)
Variables Tsun Tmercury Tvenus Tearth Tmars Tjupiter Tsaturn Turanus Tneptune : R.

Definition _ss_mass_sec : gmap string R :=
  list_to_map [("sun", Tsun); ("mercury", Tmercury); ("venus", Tvenus);
               ("earth", Tearth); ("mars", Tmars); ("jupiter", Tjupiter);
               ("saturn", Tsaturn); ("uranus", Turanus); ("neptune", Tneptune)].

(** [self._ss_mass_sec[k]] *)
Definition mass_getitem (k : string) : result R :=
  match _ss_mass_sec !! k with
  | Some m => Ok m
  | None => Raise (KeyError k)
  end.

(** The statement
    [delay[loind:hiind] += self.ss_obj_shapiro_delay(grp[field], psr_dir, self._ss_mass_sec[k])],
    which the source has once for the Sun and once in the loop of the
    planets. *)
Definition add_object_delay (grp : Group) (psr_dir : list vec3) (loind hiind : nat)
    (delay : list num) (field k : string) : result (list num) :=
  obj_pos <- getitem grp field ;;
  T_obj <- mass_getitem k ;;
  d <- ss_obj_shapiro_delay obj_pos psr_dir T_obj ;;
  slice_iadd delay loind hiind d.

(** [for pl in planets: ...] *)
Fixpoint planets_loop (grp : Group) (psr_dir : list vec3) (loind hiind : nat)
    (planets : list string) (delay : list num) : result (list num) :=
  match planets with
  | [] => Ok delay
  | pl :: rest =>
      delay' <- add_object_delay grp psr_dir loind hiind delay ("obs_" +:+ pl +:+ "_pos") pl ;;
      planets_loop grp psr_dir loind hiind rest delay'
  end.

(** The planets of the planetary term, in the order of the source. *)
Definition planets : list string := ["jupiter"; "saturn"; "venus"; "uranus"].

(** The body of the loop over the groups.  The assignment to [obs], which
    the source never reads, is left out. *)
Definition group_body (toas : Table) (ii : nat) (key : string) (delay : list num)
  : M (list num) :=
  grp <~ mlift (groups_getitem toas ii) ;;
  bounds <~ mlift (unpack2 (py_slice ii (ii + 2) (groups_indices toas))) ;;
  let '(loind, hiind) := bounds in
  if String.eqb key "Barycenter" then
    _ <~ log_info "Skipping Shapiro delay for Barycentric TOAs" ;;
    mpure delay
  else
    let psr_dir := ssb_to_psb_xyz (astype_float64 (g_tdbld grp)) in
    delay <~ mlift (add_object_delay grp psr_dir loind hiind delay "obs_sun_pos" "sun") ;;
    flag <~ read_PLANET_SHAPIRO ;;
    if flag then
      mlift (planets_loop grp psr_dir loind hiind planets delay)
    else mpure delay.

(** [for ii, key in enumerate(keys): ...] from the index [ii] on. *)
Fixpoint groups_loop (toas : Table) (ii : nat) (keys : list string) (delay : list num)
  : M (list num) :=
  match keys with
  | [] => mpure delay
  | key :: rest =>
      delay' <~ group_body toas ii key delay ;;
      groups_loop toas (S ii) rest delay'
  end.

Definition solar_system_shapiro_delay (toas : Table) : M (list num) :=
  let delay := replicate (len toas) (Finite 0) in
  groups_loop toas 0 (groups_keys toas) delay.

(** ** Definitions used to state the properties *)

(** The group boundaries are in non-decreasing order. *)
Definition indices_sorted (toas : Table) : Prop :=
  forall (ii a b : nat),
    groups_indices toas !! ii = Some a ->
    groups_indices toas !! S ii = Some b -> a <= b.

(** A grouped table as astropy builds it: one boundary more than there are
    groups, boundaries in non-decreasing order, and every position column
    as long as the table. *)
Record wf_table (toas : Table) : Prop := {
  wf_indices_length :
    length (groups_indices toas) = S (length (groups_keys toas));
  wf_indices_mono : indices_sorted toas;
  wf_columns :
    forall (field : string) (c : Quantity (list vec3)),
      columns toas !! field = Some c -> length (qvalue c) = len toas
}.

(** The direction provider gives one vector for each epoch. *)
Definition provider_ok : Prop :=
  forall epoch : list R, length (ssb_to_psb_xyz epoch) = length epoch.

(** The record that [log.info] appends when a group is skipped. *)
Definition skip_record : LogRecord :=
  mkLogRecord "INFO" "Skipping Shapiro delay for Barycentric TOAs".

(** [term i] is added to every element [i] of the range [lo..hi). *)
Definition add_on_range (lo hi : nat) (term : nat -> num) (delay : list num) : list num :=
  imap (fun i v => if bool_decide (lo <= i < hi) then nadd v (term i) else v) delay.

(** The delay of the object with position column [field] and mass [T] on
    row [i] of the table, for the group of rows [lo..hi) (zero where the
    table has no such row). *)
Definition object_term (toas : Table) (lo hi : nat) (field : string) (T : R) (i : nat) : num :=
  match columns toas !! field with
  | Some c =>
      match qvalue c !! i, ssb_to_psb_xyz (py_slice lo hi (tdbld toas)) !! (i - lo) with
      | Some p, Some d => shapiro_formula (qunit c) p d T
      | _, _ => Finite 0
      end
  | None => Finite 0
  end.

(** The delays that a group with key [key] and rows [lo..hi) adds to row
    [i], in the order of the source. *)
Definition row_terms (toas : Table) (flag : bool) (key : string) (lo hi i : nat) : list num :=
  if String.eqb key "Barycenter" then []
  else
    object_term toas lo hi "obs_sun_pos" Tsun i ::
    (if flag then
       [object_term toas lo hi "obs_jupiter_pos" Tjupiter i;
        object_term toas lo hi "obs_saturn_pos" Tsaturn i;
        object_term toas lo hi "obs_venus_pos" Tvenus i;
        object_term toas lo hi "obs_uranus_pos" Turanus i]
     else []).

(** What such a group makes of the element [v] of row [i]. *)
Definition row_update (toas : Table) (flag : bool) (key : string) (lo hi i : nat)
    (v : num) : num :=
  foldl nadd v (row_terms toas flag key lo hi i).

(** The number of groups of the barycentric observatory. *)
Definition skipped (keys : list string) : nat :=
  length (List.filter (fun key => String.eqb key "Barycenter") keys).

(** The number of barycentric groups before the first group of another
    observatory. *)
Fixpoint skipped_before_first (keys : list string) : nat :=
  match keys with
  | [] => 0
  | key :: rest =>
      if String.eqb key "Barycenter" then S (skipped_before_first rest) else 0
  end.

(** The position columns a call reads. *)
Definition used_fields (flag : bool) : list string :=
  "obs_sun_pos" ::
  (if flag then ["obs_jupiter_pos"; "obs_saturn_pos"; "obs_venus_pos"; "obs_uranus_pos"]
   else []).

(** Two tables that differ at most in position columns a call does not
    read. *)
Definition same_used_data (flag : bool) (toas toas' : Table) : Prop :=
  tdbld toas' = tdbld toas /\
  groups_keys toas' = groups_keys toas /\
  groups_indices toas' = groups_indices toas /\
  forall field : string, field ∈ used_fields flag -> columns toas' !! field = columns toas !! field.

(** * Properties *)

(** ** The parse and print functions of [PLANET_SHAPIRO] *)

Example parse_Y : parse_value PLANET_SHAPIRO "Y" = true.
Proof. reflexivity. Qed.

Example parse_lower_y : parse_value PLANET_SHAPIRO "y" = true.
Proof. reflexivity. Qed.

Example parse_yes : parse_value PLANET_SHAPIRO "yes" = false.
Proof. reflexivity. Qed.

Lemma upper_ascii_Y (c : ascii) :
  upper_ascii c = "Y"%char <-> c = "Y"%char \/ c = "y"%char.
Proof.
  split.
  - destruct c as [[] [] [] [] [] [] [] []]; vm_compute; intros H;
      try discriminate H; auto.
  - intros [-> | ->]; reflexivity.
Qed.

Lemma upper_Y (s : string) : upper s = "Y" <-> s = "Y" \/ s = "y".
Proof.
  split.
  - destruct s as [|c [|c' s']]; simpl; intros H; try discriminate H.
    injection H as H. apply upper_ascii_Y in H. destruct H as [-> | ->]; auto.
  - intros [-> | ->]; reflexivity.
Qed.

Lemma parse_value_true (s : string) :
  parse_value PLANET_SHAPIRO s = true <-> upper s = "Y".
Proof. simpl. apply String.eqb_eq. Qed.

(** C8: parsing what [print_value] wrote gives the value back, for [true]
    (written "Y") and for [false] (written "N"). *)
Theorem parse_print_roundtrip :
  (forall v : bool, parse_value PLANET_SHAPIRO (print_value PLANET_SHAPIRO v) = v) /\
  print_value PLANET_SHAPIRO true = "Y" /\
  print_value PLANET_SHAPIRO false = "N".
Proof.
  split; [intros []; reflexivity | split; reflexivity].
Qed.

(** C9, as stated, fails: the text "y" is parsed to [true], which is printed
    as "Y". *)
Lemma print_parse_lower_y :
  parse_value PLANET_SHAPIRO "y" = true /\
  print_value PLANET_SHAPIRO (parse_value PLANET_SHAPIRO "y") <> "y".
Proof. split; [reflexivity | discriminate]. Qed.

(** C9, amended: printing the parsed value gives the text back exactly for
    the two canonical texts "Y" and "N"; any other text comes back as one of
    these two, the one that parses to the same value. *)
Theorem print_parse_canonical :
  forall t : string,
    (print_value PLANET_SHAPIRO (parse_value PLANET_SHAPIRO t) = t <-> t = "Y" \/ t = "N") /\
    (print_value PLANET_SHAPIRO (parse_value PLANET_SHAPIRO t) = "Y" \/
     print_value PLANET_SHAPIRO (parse_value PLANET_SHAPIRO t) = "N") /\
    parse_value PLANET_SHAPIRO (print_value PLANET_SHAPIRO (parse_value PLANET_SHAPIRO t))
    = parse_value PLANET_SHAPIRO t.
Proof.
  intros t. split; [| split].
  - split.
    + destruct (parse_value PLANET_SHAPIRO t) eqn:E; simpl; intros <-; auto.
    + intros [-> | ->]; reflexivity.
  - destruct (parse_value PLANET_SHAPIRO t); simpl; auto.
  - by destruct (parse_value PLANET_SHAPIRO t).
Qed.

(** C10: [parse_value] is a total function of the text; it is [true] exactly
    when the upper-cased text is "Y", that is for "Y" and "y", and [false]
    for any other text, "N", the empty text and malformed text included. *)
Theorem parse_value_total :
  (forall s : string, parse_value PLANET_SHAPIRO s = bool_decide (upper s = "Y")) /\
  (forall s : string, parse_value PLANET_SHAPIRO s = true <-> s = "Y" \/ s = "y") /\
  parse_value PLANET_SHAPIRO "N" = false /\
  parse_value PLANET_SHAPIRO "" = false /\
  parse_value PLANET_SHAPIRO "true" = false /\
  parse_value PLANET_SHAPIRO "Y " = false.
Proof.
  split; [|split; [|repeat split; reflexivity]].
  - intros s. destruct (parse_value PLANET_SHAPIRO s) eqn:E; symmetry.
    + apply bool_decide_eq_true. by apply parse_value_true.
    + apply bool_decide_eq_false. intros H. apply parse_value_true in H. congruence.
  - intros s. rewrite parse_value_true. apply upper_Y.
Qed.

(** ** The delay of one object *)

Lemma broadcast_same_length {A B C} (f : A -> B -> C) (a : list A) (b : list B) :
  length a = length b -> broadcast f a b = Ok (zip_with f a b).
Proof. intros H. unfold broadcast. by rewrite decide_True. Qed.

Lemma length_sum_axis1 (a : list vec3) : length (sum_axis1 a) = length a.
Proof. unfold sum_axis1. by rewrite length_map. Qed.

(** One row of the computation, in the order the source evaluates it. *)
Lemma shapiro_row (u : posreal) (p d : vec3) (T : R) :
  nscale (-2 * T)
    (np_log ((sqrt (let '(x, y, z) := vsquare p in x + y + z)
              - (let '(x, y, z) := vmul p d in x + y + z)) / qvalue au
             * unit_div u (qunit au)))
  = shapiro_formula u p d T.
Proof.
  destruct p as [[x y] z], d as [[x' y'] z'].
  unfold shapiro_formula, impact_length, one_astronomical_unit. simpl.
  do 2 f_equal.
  replace (x * (x * 1) + y * (y * 1) + z * (z * 1))%R with (x * x + y * y + z * z)%R by ring.
  field.
Qed.

Lemma ss_obj_shapiro_delay_rows (obj_pos : Quantity (list vec3)) (psr_dir : list vec3) (T_obj : R) :
  length (qvalue obj_pos) = length psr_dir ->
  ss_obj_shapiro_delay obj_pos psr_dir T_obj
  = Ok (zip_with (fun p d => shapiro_formula (qunit obj_pos) p d T_obj) (qvalue obj_pos) psr_dir).
Proof.
  intros Hlen. unfold ss_obj_shapiro_delay.
  rewrite (broadcast_same_length vmul) by done. cbn [rbind qvalue qunit].
  rewrite (broadcast_same_length Rminus).
  2:{ rewrite length_map, !length_sum_axis1, length_map, length_zip_with. lia. }
  cbn [rbind]. f_equal.
  destruct obj_pos as [ps u]. cbn [qvalue qunit] in *.
  unfold numpy_log_value, qdiv, sum_axis1. cbn [qvalue qunit].
  revert psr_dir Hlen. induction ps as [|p ps IH]; intros [|d ds] Hlen; try done.
  cbn [map zip_with]. f_equal.
  - apply shapiro_row.
  - apply IH. simpl in Hlen. lia.
Qed.

Lemma np_log_pos (x : R) : (0 < x)%R -> np_log x = Finite (ln x).
Proof. intros H. unfold np_log. destruct (Rlt_dec 0 x); [done | contradiction]. Qed.

Lemma np_log_nonpos (x : R) : (x <= 0)%R -> np_log x = NonFinite.
Proof. intros H. unfold np_log. destruct (Rlt_dec 0 x); [lra | done]. Qed.

Lemma one_astronomical_unit_pos : (0 < one_astronomical_unit)%R.
Proof. unfold one_astronomical_unit. lra. Qed.

Lemma shapiro_formula_finite (u : posreal) (p d : vec3) (T : R) :
  (0 < impact_length u p d)%R ->
  shapiro_formula u p d T
  = Finite (-2 * T * ln (impact_length u p d / one_astronomical_unit)).
Proof.
  intros H. unfold shapiro_formula. rewrite np_log_pos; [done |].
  apply Rdiv_lt_0_compat; [done | apply one_astronomical_unit_pos].
Qed.


(** C1: on a position array and a direction array of the same shape,
    [ss_obj_shapiro_delay] returns, row by row,
    [-2 * T * ln ((r - rcostheta) / one_astronomical_unit)] with the leading
    minus sign, [r] the Euclidean norm of the position and [rcostheta] its
    dot product with the direction. *)
Theorem ss_obj_shapiro_delay_formula
    (obj_pos : Quantity (list vec3)) (psr_dir : list vec3) (T_obj : R) :
  length (qvalue obj_pos) = length psr_dir ->
  exists delay : list num,
    ss_obj_shapiro_delay obj_pos psr_dir T_obj = Ok delay /\
    length delay = length psr_dir /\
    forall (i : nat) (p d : vec3),
      qvalue obj_pos !! i = Some p -> psr_dir !! i = Some d ->
      let r := (qunit obj_pos * euclidean_norm p)%R in
      let rcostheta := (qunit obj_pos * dot_product p d)%R in
      delay !! i
      = Some (nscale (-2 * T_obj) (np_log ((r - rcostheta) / one_astronomical_unit))) /\
      ((0 < r - rcostheta)%R ->
       delay !! i
       = Some (Finite (-2 * T_obj * ln ((r - rcostheta) / one_astronomical_unit)))).
Proof.
  intros Hlen. eexists. split; [by apply ss_obj_shapiro_delay_rows |].
  split; [rewrite length_zip_with; lia |].
  intros i p d Hp Hd r rcostheta.
  assert (Hi : zip_with (fun p d => shapiro_formula (qunit obj_pos) p d T_obj)
                 (qvalue obj_pos) psr_dir !! i
               = Some (shapiro_formula (qunit obj_pos) p d T_obj)).
  { rewrite lookup_zip_with, Hp, Hd. done. }
  split; [exact Hi |].
  intros Hpos. rewrite Hi. f_equal. by apply shapiro_formula_finite.
Qed.

Lemma ss_obj_shapiro_delay_formula_witness :
  exists delay : list num,
    ss_obj_shapiro_delay (mkQuantity [(0, 149597870700, 0)%R] metre) [(1, 0, 0)%R] 1 = Ok delay /\
    length delay = 1.
Proof.
  destruct (ss_obj_shapiro_delay_formula
              (mkQuantity [(0, 149597870700, 0)%R] metre) [(1, 0, 0)%R] 1 eq_refl)
    as (delay & H1 & H2 & _).
  exists delay. split; [exact H1 | exact H2].
Defined.




(** *** The same row in binary64 *)



Example overflow_f64 :
  shapiro_row_f64 (0x1p600, 0, 0)%float (0, 1, 0)%float 1 = DelayIs neg_infinity.
Proof. reflexivity. Qed.

Example cancellation_f64 :
  shapiro_row_f64 (0x1p30, 0x1p-30, 0)%float (1, 0, 0)%float 1 = DelayIs infinity.
Proof. reflexivity. Qed.

Example one_astronomical_unit_f64 :
  shapiro_row_f64 (0, 149597870700, 0)%float (1, 0, 0)%float 1
  = DelayTimesLog (-2) 1.
Proof. reflexivity. Qed.




(** ** Slices *)

Lemma length_py_slice {A} (lo hi : nat) (l : list A) :
  length (py_slice lo hi l) = min (hi - lo) (length l - lo).
Proof. unfold py_slice. by rewrite length_take, length_drop. Qed.

Lemma length_py_slice_eq {A B} (lo hi : nat) (l : list A) (k : list B) :
  length l = length k -> length (py_slice lo hi l) = length (py_slice lo hi k).
Proof. intros H. by rewrite !length_py_slice, H. Qed.

Lemma lookup_py_slice {A} (lo hi : nat) (l : list A) (j : nat) :
  py_slice lo hi l !! j = if decide (j < hi - lo) then l !! (lo + j) else None.
Proof. unfold py_slice. rewrite lookup_take. case_decide; [apply lookup_drop | done]. Qed.

(** The element [i] of a list whose elements [lo .. lo + length new) are
    replaced. *)
Lemma lookup_splice (d new : list num) (lo i : nat) :
  length new <= length d - lo ->
  (take lo d ++ new ++ drop (lo + length new) d)%list !! i
  = if decide (lo <= i < lo + length new) then new !! (i - lo) else d !! i.
Proof.
  intros Hk.
  destruct (decide (lo <= length d)) as [Hlo | Hlo].
  - rewrite lookup_app, lookup_take. rewrite length_take_le by done.
    destruct (decide (i < lo)) as [Hi | Hi].
    + rewrite decide_False by lia.
      destruct (d !! i) eqn:E; [done |].
      apply lookup_ge_None in E. lia.
    + rewrite lookup_app.
      destruct (decide (i < lo + length new)) as [Hi' | Hi'].
      * rewrite decide_True by lia.
        destruct (new !! (i - lo)) eqn:E; [done |].
        apply lookup_ge_None in E. lia.
      * rewrite decide_False by lia.
        rewrite (lookup_ge_None_2 new) by lia.
        rewrite lookup_drop. f_equal. lia.
  - assert (length new = 0) as Hz by lia.
    destruct new; [| done]. simpl.
    rewrite decide_False by lia.
    rewrite take_ge by lia. rewrite drop_ge by lia. by rewrite app_nil_r.
Qed.

Lemma slice_iadd_frame (delay : list num) (lo hi : nat) (x delay' : list num) :
  slice_iadd delay lo hi x = Ok delay' ->
  length delay' = length delay /\
  forall i : nat, ~ (lo <= i < hi) -> delay' !! i = delay !! i.
Proof.
  unfold slice_iadd.
  set (view := py_slice lo hi delay).
  intros H.
  assert (exists new, length new = length view /\
            delay' = (take lo delay ++ new ++ drop (lo + length view) delay)%list)
    as (new & Hnew & ->).
  { destruct (decide (length x = length view)) as [Hx | Hx].
    - simpl in H. injection H as <-. eexists. split; [| done].
      rewrite length_zip_with. lia.
    - destruct x as [|a [|b x]]; simpl in H; try discriminate H.
      injection H as <-. eexists. split; [| done]. by rewrite length_map. }
  assert (Hview : length view = min (hi - lo) (length delay - lo))
    by apply length_py_slice.
  split.
  - rewrite !length_app, length_take, length_drop. lia.
  - intros i Hi. rewrite <- Hnew. rewrite lookup_splice by lia.
    rewrite decide_False; [done | lia].
Qed.

Lemma slice_iadd_same_length (delay : list num) (lo hi : nat) (x : list num) :
  length x = length (py_slice lo hi delay) ->
  slice_iadd delay lo hi x
  = Ok (add_on_range lo hi (fun i => default (Finite 0) (x !! (i - lo))) delay).
Proof.
  intros Hx. unfold slice_iadd. rewrite decide_True by done. cbn [rbind]. f_equal.
  assert (Hview : length (py_slice lo hi delay) = min (hi - lo) (length delay - lo))
    by apply length_py_slice.
  apply list_eq. intros i.
  replace (length (py_slice lo hi delay))
    with (length (zip_with nadd (py_slice lo hi delay) x))
    by (rewrite length_zip_with; lia).
  rewrite lookup_splice by (rewrite length_zip_with; lia).
  unfold add_on_range. rewrite list_lookup_imap, length_zip_with, <- Hx, Nat.min_id.
  destruct (decide (lo <= i < lo + length x)) as [Hi | Hi].
  - rewrite lookup_zip_with, lookup_py_slice, decide_True by lia.
    replace (lo + (i - lo)) with i by lia.
    destruct (delay !! i) as [v|] eqn:E; [| apply lookup_ge_None in E; lia].
    simpl.
    destruct (x !! (i - lo)) as [a|] eqn:Ea; [| apply lookup_ge_None in Ea; lia].
    simpl. rewrite bool_decide_eq_true_2 by lia. done.
  - destruct (delay !! i) as [v|] eqn:E; [| done]. simpl.
    apply lookup_lt_Some in E.
    rewrite bool_decide_eq_false_2 by lia. done.
Qed.

(** ** One statement of the loop body *)

Lemma unpack2_indices (l : list nat) (ii lo hi : nat) :
  l !! ii = Some lo -> l !! S ii = Some hi ->
  unpack2 (py_slice ii (ii + 2) l) = Ok (lo, hi).
Proof.
  intros Hlo Hhi.
  assert (py_slice ii (ii + 2) l = [lo; hi]) as ->; [| done].
  apply list_eq. intros [|[|j]]; rewrite lookup_py_slice.
  - rewrite decide_True by lia. by rewrite Nat.add_0_r.
  - rewrite decide_True by lia. by rewrite Nat.add_1_r.
  - rewrite decide_False by lia. done.
Qed.

Lemma mass_getitem_known :
  mass_getitem "sun" = Ok Tsun /\ mass_getitem "jupiter" = Ok Tjupiter /\
  mass_getitem "saturn" = Ok Tsaturn /\ mass_getitem "venus" = Ok Tvenus /\
  mass_getitem "uranus" = Ok Turanus.
Proof. repeat split; reflexivity. Qed.

Lemma getitem_table_rows (toas : Table) (lo hi : nat) (field : string) :
  getitem (table_rows toas lo hi) field
  = match columns toas !! field with
    | Some c => Ok (mkQuantity (py_slice lo hi (qvalue c)) (qunit c))
    | None => Raise (KeyError field)
    end.
Proof.
  unfold getitem, table_rows. cbn [g_columns]. rewrite lookup_fmap.
  by destruct (columns toas !! field).
Qed.

Lemma add_object_delay_missing (toas : Table) (psr_dir : list vec3) (lo hi : nat)
    (delay : list num) (field k : string) :
  columns toas !! field = None ->
  add_object_delay (table_rows toas lo hi) psr_dir lo hi delay field k
  = Raise (KeyError field).
Proof.
  intros H. unfold add_object_delay. rewrite getitem_table_rows, H. done.
Qed.

Lemma add_object_delay_frame (grp : Group) (psr_dir : list vec3) (lo hi : nat)
    (delay : list num) (field k : string) (delay' : list num) :
  add_object_delay grp psr_dir lo hi delay field k = Ok delay' ->
  length delay' = length delay /\
  forall i : nat, ~ (lo <= i < hi) -> delay' !! i = delay !! i.
Proof.
  unfold add_object_delay.
  destruct (getitem grp field) as [obj_pos|]; [| done].
  destruct (mass_getitem k) as [T_obj|]; [| done].
  cbn [rbind].
  destruct (ss_obj_shapiro_delay obj_pos psr_dir T_obj) as [d|]; [| done].
  cbn [rbind]. apply slice_iadd_frame.
Qed.

Lemma planets_loop_frame (grp : Group) (psr_dir : list vec3) (lo hi : nat)
    (planets : list string) (delay delay' : list num) :
  planets_loop grp psr_dir lo hi planets delay = Ok delay' ->
  length delay' = length delay /\
  forall i : nat, ~ (lo <= i < hi) -> delay' !! i = delay !! i.
Proof.
  revert delay. induction planets as [|pl rest IH]; intros delay; simpl.
  - intros [= <-]. done.
  - destruct (add_object_delay grp psr_dir lo hi delay ("obs_" +:+ pl +:+ "_pos") pl)
      as [d1|] eqn:E; [| done].
    cbn [rbind]. intros H.
    apply add_object_delay_frame in E as [E1 E2].
    apply IH in H as [H1 H2]. split; [congruence |].
    intros i Hi. rewrite H2, E2; done.
Qed.

Lemma add_object_delay_ok (toas : Table) (lo hi : nat) (delay : list num)
    (field k : string) (c : Quantity (list vec3)) (T : R) :
  provider_ok ->
  columns toas !! field = Some c ->
  length (qvalue c) = len toas ->
  length delay = len toas ->
  mass_getitem k = Ok T ->
  add_object_delay (table_rows toas lo hi)
    (ssb_to_psb_xyz (astype_float64 (g_tdbld (table_rows toas lo hi)))) lo hi delay field k
  = Ok (add_on_range lo hi (object_term toas lo hi field T) delay).
Proof.
  intros Hprov Hc Hlen Hd HT. unfold add_object_delay.
  rewrite getitem_table_rows, Hc, HT. cbn [rbind].
  unfold astype_float64. cbn [table_rows g_tdbld].
  set (psr := ssb_to_psb_xyz (py_slice lo hi (tdbld toas))).
  assert (Hpsr : length psr = length (py_slice lo hi (qvalue c))).
  { unfold psr. rewrite Hprov. apply length_py_slice_eq. by rewrite Hlen. }
  rewrite ss_obj_shapiro_delay_rows by done. cbn [rbind qvalue qunit].
  rewrite slice_iadd_same_length.
  2:{ rewrite length_zip_with, Hpsr, Nat.min_id. apply length_py_slice_eq. congruence. }
  f_equal. unfold add_on_range. apply imap_ext. intros i v Hv. cbn beta.
  destruct (bool_decide (lo <= i < hi)) eqn:Hi; [| done].
  apply bool_decide_eq_true in Hi. f_equal.
  unfold object_term. rewrite Hc. fold psr.
  rewrite lookup_zip_with, lookup_py_slice.
  rewrite decide_True by lia. replace (lo + (i - lo)) with i by lia.
  destruct (qvalue c !! i) as [p|] eqn:Hp.
  - simpl. destruct (psr !! (i - lo)) as [d|]; done.
  - apply lookup_ge_None in Hp. apply lookup_lt_Some in Hv. lia.
Qed.

(** ** The body of the loop over the groups *)

Lemma group_body_eq (toas : Table) (ii : nat) (key : string) (delay : list num)
    (s : State) (lo hi : nat) :
  groups_indices toas !! ii = Some lo ->
  groups_indices toas !! S ii = Some hi ->
  group_body toas ii key delay s
  = if String.eqb key "Barycenter" then
      (Ok delay, mkState (self_PLANET_SHAPIRO s) (log_records s ++ [skip_record]))
    else
      let grp := table_rows toas lo hi in
      let psr_dir := ssb_to_psb_xyz (astype_float64 (g_tdbld grp)) in
      (delay1 <- add_object_delay grp psr_dir lo hi delay "obs_sun_pos" "sun" ;;
       if value (self_PLANET_SHAPIRO s) then planets_loop grp psr_dir lo hi planets delay1
       else Ok delay1, s).
Proof.
  intros Hlo Hhi. unfold group_body, sbind, mlift, groups_getitem.
  rewrite Hlo, Hhi, (unpack2_indices _ _ _ _ Hlo Hhi).
  destruct (String.eqb key "Barycenter"); [done |].
  cbn zeta.
  destruct (add_object_delay _ _ lo hi delay "obs_sun_pos" "sun") as [d1|]; [| done].
  cbn [rbind]. unfold read_PLANET_SHAPIRO, mpure.
  by destruct (value (self_PLANET_SHAPIRO s)).
Qed.

Lemma group_body_index_error (toas : Table) (ii : nat) (key : string) (delay : list num)
    (s : State) :
  groups_indices toas !! ii = None \/ groups_indices toas !! S ii = None ->
  group_body toas ii key delay s = (Raise IndexError, s).
Proof.
  intros H. unfold group_body, sbind, mlift, groups_getitem.
  destruct H as [-> | ->]; [done |]. by destruct (groups_indices toas !! ii).
Qed.

(** A successful body has found its group, keeps the length of the vector and
    touches no element outside the rows of the group. *)
Lemma group_body_frame (toas : Table) (ii : nat) (key : string) (delay delay' : list num)
    (s s' : State) :
  group_body toas ii key delay s = (Ok delay', s') ->
  exists lo hi : nat,
    groups_indices toas !! ii = Some lo /\
    groups_indices toas !! S ii = Some hi /\
    length delay' = length delay /\
    (forall i : nat, ~ (lo <= i < hi) -> delay' !! i = delay !! i) /\
    (key = "Barycenter" -> delay' = delay) /\
    s' = mkState (self_PLANET_SHAPIRO s)
           (log_records s ++ if String.eqb key "Barycenter" then [skip_record] else []).
Proof.
  intros H.
  destruct (groups_indices toas !! ii) as [lo|] eqn:Hlo;
    [| rewrite group_body_index_error in H by auto; discriminate H].
  destruct (groups_indices toas !! S ii) as [hi|] eqn:Hhi;
    [| rewrite group_body_index_error in H by auto; discriminate H].
  exists lo, hi. split; [done |]. split; [done |].
  rewrite (group_body_eq _ _ _ _ _ lo hi) in H by done.
  destruct (String.eqb key "Barycenter") eqn:Hkey.
  - injection H as <- <-. done.
  - cbn zeta in H.
    assert (Hs : s' = mkState (self_PLANET_SHAPIRO s) (log_records s ++ [])).
    { apply (f_equal snd) in H. cbn [snd] in H. subst s'.
      destruct s. cbn. by rewrite app_nil_r. }
    destruct (add_object_delay _ _ lo hi delay "obs_sun_pos" "sun") as [d1|] eqn:E;
      [| discriminate H].
    cbn [rbind] in H. apply add_object_delay_frame in E as [E1 E2].
    assert (Hne : key = "Barycenter" -> delay' = delay).
    { intros ->. discriminate Hkey. }
    destruct (value (self_PLANET_SHAPIRO s)).
    + apply (f_equal fst) in H. cbn [fst] in H.
      apply planets_loop_frame in H as [H1 H2].
      split; [congruence |]. split; [| done].
      intros i Hi. rewrite H2, E2; done.
    + injection H as <- _. done.
Qed.

(** The model instance is never written, and what the body returns depends
    on the state through the value of [PLANET_SHAPIRO] only. *)
Lemma group_body_state (toas : Table) (ii : nat) (key : string) (delay : list num)
    (s1 s2 : State) :
  value (self_PLANET_SHAPIRO s1) = value (self_PLANET_SHAPIRO s2) ->
  (group_body toas ii key delay s1).1 = (group_body toas ii key delay s2).1 /\
  self_PLANET_SHAPIRO (group_body toas ii key delay s1).2 = self_PLANET_SHAPIRO s1.
Proof.
  intros Hv.
  destruct (groups_indices toas !! ii) as [lo|] eqn:Hlo;
    [| rewrite !group_body_index_error by auto; done].
  destruct (groups_indices toas !! S ii) as [hi|] eqn:Hhi;
    [| rewrite !group_body_index_error by auto; done].
  rewrite !(group_body_eq _ _ _ _ _ lo hi) by done.
  destruct (String.eqb key "Barycenter"); [done |].
  cbn zeta. rewrite Hv. done.
Qed.

(** ** The loop over the groups *)

Lemma skipped_cons (key : string) (rest : list string) :
  skipped (key :: rest)
  = (if String.eqb key "Barycenter" then 1 else 0) + skipped rest.
Proof. unfold skipped. simpl. by destruct (String.eqb key "Barycenter"). Qed.

(** A successful loop keeps the length of the vector, touches no element
    outside the rows of its groups of other than the barycentric observatory,
    and logs one record for each barycentric group. *)
Lemma groups_loop_frame (toas : Table) (rest : list string) :
  forall (ii : nat) (delay delay' : list num) (s s' : State),
    groups_loop toas ii rest delay s = (Ok delay', s') ->
    length delay' = length delay /\
    (forall i : nat,
       (forall (j : nat) (key : string) (lo hi : nat),
          rest !! j = Some key -> key <> "Barycenter" ->
          groups_indices toas !! (ii + j) = Some lo ->
          groups_indices toas !! S (ii + j) = Some hi ->
          ~ (lo <= i < hi)) ->
       delay' !! i = delay !! i) /\
    s' = mkState (self_PLANET_SHAPIRO s)
           (log_records s ++ replicate (skipped rest) skip_record).
Proof.
  induction rest as [|key rest IH]; intros ii delay delay' s s' H.
  - cbn in H. injection H as <- <-. split; [done |]. split; [done |].
    destruct s. cbn. by rewrite app_nil_r.
  - cbn [groups_loop] in H. unfold sbind in H.
    destruct (group_body toas ii key delay s) as [[d1|e] s1] eqn:E; [| discriminate H].
    apply group_body_frame in E as (lo & hi & Hlo & Hhi & E1 & E2 & E3 & ->).
    apply IH in H as (H1 & H2 & ->). cbn [self_PLANET_SHAPIRO log_records].
    split; [congruence |]. split.
    + intros i Hi. rewrite H2.
      * destruct (decide (key = "Barycenter")) as [Hk | Hk]; [by rewrite E3 |].
        apply E2. apply (Hi 0 key lo hi); try done; by rewrite Nat.add_0_r.
      * intros j key' lo' hi' Hkey' Hne Hlo' Hhi'.
        apply (Hi (S j) key' lo' hi'); try done; by rewrite Nat.add_succ_r.
    + f_equal. rewrite skipped_cons, <- app_assoc. f_equal.
      by destruct (String.eqb key "Barycenter").
Qed.

Lemma indices_mono_le (toas : Table) :
  indices_sorted toas ->
  forall (j i a b : nat),
    i <= j ->
    groups_indices toas !! i = Some a -> groups_indices toas !! j = Some b -> a <= b.
Proof.
  intros Hwf. induction j as [|j IH]; intros i a b Hij Ha Hb.
  - assert (i = 0) as -> by lia. rewrite Ha in Hb. injection Hb as ->. done.
  - destruct (decide (i = S j)) as [-> | Hne].
    + rewrite Ha in Hb. injection Hb as ->. done.
    + destruct (groups_indices toas !! j) as [c|] eqn:Hc.
      * transitivity c.
        -- apply (IH i a c); [lia | done | done].
        -- by apply (Hwf j).
      * apply lookup_ge_None in Hc. apply lookup_lt_Some in Hb. lia.
Qed.

Lemma used_fields_present (toas : Table) (flag : bool) :
  (forall field : string, field ∈ used_fields flag -> is_Some (columns toas !! field)) ->
  is_Some (columns toas !! "obs_sun_pos") /\
  (flag = true ->
   is_Some (columns toas !! "obs_jupiter_pos") /\
   is_Some (columns toas !! "obs_saturn_pos") /\
   is_Some (columns toas !! "obs_venus_pos") /\
   is_Some (columns toas !! "obs_uranus_pos")).
Proof.
  intros H. split.
  - apply H. unfold used_fields. apply list_elem_of_here.
  - intros ->. unfold used_fields in H.
    repeat split; apply H; repeat first [apply list_elem_of_here | apply list_elem_of_further].
Qed.

Lemma length_add_on_range (lo hi : nat) (term : nat -> num) (delay : list num) :
  length (add_on_range lo hi term delay) = length delay.
Proof. unfold add_on_range. apply length_imap. Qed.

Lemma lookup_add_on_range (lo hi : nat) (term : nat -> num) (delay : list num) (i : nat) :
  add_on_range lo hi term delay !! i
  = (fun v => if bool_decide (lo <= i < hi) then nadd v (term i) else v) <$> delay !! i.
Proof. unfold add_on_range. apply list_lookup_imap. Qed.

(** The body on a well-formed table whose used columns are present. *)
Lemma group_body_ok (toas : Table) (ii : nat) (key : string) (delay : list num)
    (s : State) (lo hi : nat) :
  wf_table toas -> provider_ok ->
  (forall field : string,
     field ∈ used_fields (value (self_PLANET_SHAPIRO s)) -> is_Some (columns toas !! field)) ->
  groups_indices toas !! ii = Some lo ->
  groups_indices toas !! S ii = Some hi ->
  length delay = len toas ->
  exists delay' : list num,
    group_body toas ii key delay s
    = (Ok delay',
       mkState (self_PLANET_SHAPIRO s)
         (log_records s ++ if String.eqb key "Barycenter" then [skip_record] else [])) /\
    length delay' = len toas /\
    forall i : nat,
      delay' !! i
      = (fun v => if bool_decide (lo <= i < hi)
                  then row_update toas (value (self_PLANET_SHAPIRO s)) key lo hi i v
                  else v) <$> delay !! i.
Proof.
  intros Hwf Hprov Hcols Hlo Hhi Hlen.
  rewrite (group_body_eq _ _ _ _ _ lo hi) by done.
  unfold row_update, row_terms.
  destruct (String.eqb key "Barycenter") eqn:Hkey.
  - exists delay. split; [done |]. split; [done |].
    intros i. destruct (delay !! i); [| done]. simpl. by destruct (bool_decide _).
  - cbn zeta.
    assert (Hs : s = mkState (self_PLANET_SHAPIRO s) (log_records s ++ []))
      by (destruct s; cbn; by rewrite app_nil_r).
    rewrite <- Hs. clear Hs.
    apply used_fields_present in Hcols as [[csun Hsun] Hpl].
    destruct mass_getitem_known as (Msun & Mjup & Msat & Mven & Mura).
    rewrite (add_object_delay_ok toas lo hi delay _ _ csun Tsun);
      try done; [| by apply (wf_columns _ Hwf "obs_sun_pos")].
    cbn [rbind].
    destruct (value (self_PLANET_SHAPIRO s)).
    + destruct (Hpl eq_refl) as ([cj Hj] & [cs Hs] & [cv Hv] & [cu Hu]).
      cbn [planets_loop planets].
      change ("obs_" +:+ "jupiter" +:+ "_pos") with "obs_jupiter_pos".
      change ("obs_" +:+ "saturn" +:+ "_pos") with "obs_saturn_pos".
      change ("obs_" +:+ "venus" +:+ "_pos") with "obs_venus_pos".
      change ("obs_" +:+ "uranus" +:+ "_pos") with "obs_uranus_pos".
      rewrite (add_object_delay_ok toas lo hi _ _ _ cj Tjupiter); try done;
        [| by apply (wf_columns _ Hwf "obs_jupiter_pos")
         | by rewrite length_add_on_range].
      cbn [rbind].
      rewrite (add_object_delay_ok toas lo hi _ _ _ cs Tsaturn); try done;
        [| by apply (wf_columns _ Hwf "obs_saturn_pos")
         | by rewrite !length_add_on_range].
      cbn [rbind].
      rewrite (add_object_delay_ok toas lo hi _ _ _ cv Tvenus); try done;
        [| by apply (wf_columns _ Hwf "obs_venus_pos")
         | by rewrite !length_add_on_range].
      cbn [rbind].
      rewrite (add_object_delay_ok toas lo hi _ _ _ cu Turanus); try done;
        [| by apply (wf_columns _ Hwf "obs_uranus_pos")
         | by rewrite !length_add_on_range].
      eexists. split; [done |]. split; [by rewrite !length_add_on_range |].
      intros i. rewrite !lookup_add_on_range.
      destruct (delay !! i); [| done]. simpl. by destruct (bool_decide _).
    + eexists. split; [done |]. split; [by rewrite length_add_on_range |].
      intros i. rewrite lookup_add_on_range.
      destruct (delay !! i); [| done]. simpl. by destruct (bool_decide _).
Qed.

(** The loop on a well-formed table whose used columns are present: it
    succeeds, and every row of one of its groups is updated once, by that
    group. *)
Lemma groups_loop_ok (toas : Table) (flag : bool) (rest : list string) :
  wf_table toas -> provider_ok ->
  (forall field : string, field ∈ used_fields flag -> is_Some (columns toas !! field)) ->
  forall (ii : nat) (delay : list num) (s : State),
    value (self_PLANET_SHAPIRO s) = flag ->
    ii + length rest < length (groups_indices toas) ->
    length delay = len toas ->
    exists delay' : list num,
      groups_loop toas ii rest delay s
      = (Ok delay',
         mkState (self_PLANET_SHAPIRO s)
           (log_records s ++ replicate (skipped rest) skip_record)) /\
      length delay' = len toas /\
      (forall (i lo : nat),
         groups_indices toas !! ii = Some lo -> i < lo -> delay' !! i = delay !! i) /\
      (forall (j : nat) (key : string) (lo hi i : nat),
         rest !! j = Some key ->
         groups_indices toas !! (ii + j) = Some lo ->
         groups_indices toas !! S (ii + j) = Some hi ->
         lo <= i < hi ->
         delay' !! i = row_update toas flag key lo hi i <$> delay !! i).
Proof.
  intros Hwf Hprov Hcols.
  induction rest as [|key rest IH]; intros ii delay s Hflag Hii Hlen.
  - exists delay. cbn. split; [| split; [done | split; [done | intros j; by destruct j]]].
    destruct s. unfold mpure. cbn. by rewrite app_nil_r.
  - cbn [length] in Hii.
    destruct (lookup_lt_is_Some_2 (groups_indices toas) ii) as [lo Hlo]; [lia |].
    destruct (lookup_lt_is_Some_2 (groups_indices toas) (S ii)) as [hi Hhi]; [lia |].
    assert (Hlohi : lo <= hi) by (by apply (wf_indices_mono _ Hwf ii)).
    destruct (group_body_ok toas ii key delay s lo hi) as (d1 & E & Hlen1 & Hrow);
      try done; [by rewrite Hflag |].
    rewrite Hflag in Hrow.
    destruct (IH (S ii) d1
                (mkState (self_PLANET_SHAPIRO s)
                   (log_records s ++ if String.eqb key "Barycenter" then [skip_record] else [])))
      as (d' & E' & Hlen' & Hbefore & Hrows); [done | lia | done |].
    exists d'. cbn [groups_loop]. unfold sbind. rewrite E, E'.
    cbn [self_PLANET_SHAPIRO log_records].
    split; [| split; [done | split]].
    + do 2 f_equal. rewrite skipped_cons, <- app_assoc. f_equal.
      by destruct (String.eqb key "Barycenter").
    + intros i lo' Hlo' Hi. assert (lo' = lo) as -> by congruence.
      rewrite (Hbefore i hi) by (done || lia).
      rewrite Hrow, bool_decide_eq_false_2 by lia. by destruct (delay !! i).
    + intros j key' lo' hi' i Hkey' Hlo' Hhi' Hi. destruct j as [|j].
      * rewrite Nat.add_0_r in Hlo', Hhi'. cbn in Hkey'.
        assert (lo' = lo) as -> by congruence.
        assert (hi' = hi) as -> by congruence.
        assert (key' = key) as -> by congruence.
        rewrite (Hbefore i hi) by (done || lia).
        rewrite Hrow, bool_decide_eq_true_2 by lia. done.
      * rewrite Nat.add_succ_r in Hlo', Hhi'. cbn in Hkey'.
        rewrite (Hrows j key' lo' hi' i) by done.
        assert (hi <= lo').
        { apply (indices_mono_le toas (wf_indices_mono _ Hwf) (S ii + j) (S ii));
            [lia | done | done]. }
        rewrite Hrow, bool_decide_eq_false_2 by lia. by destruct (delay !! i).
Qed.

(** ** Columns the call does not read *)

Lemma add_object_delay_agree (toas toas' : Table) (psr_dir : list vec3) (lo hi : nat)
    (delay : list num) (field k : string) :
  columns toas' !! field = columns toas !! field ->
  add_object_delay (table_rows toas' lo hi) psr_dir lo hi delay field k
  = add_object_delay (table_rows toas lo hi) psr_dir lo hi delay field k.
Proof. intros H. unfold add_object_delay. by rewrite !getitem_table_rows, H. Qed.

Lemma planets_loop_agree (toas toas' : Table) (psr_dir : list vec3) (lo hi : nat)
    (pls : list string) :
  (forall pl : string,
     pl ∈ pls ->
     columns toas' !! ("obs_" +:+ pl +:+ "_pos") = columns toas !! ("obs_" +:+ pl +:+ "_pos")) ->
  forall delay : list num,
    planets_loop (table_rows toas' lo hi) psr_dir lo hi pls delay
    = planets_loop (table_rows toas lo hi) psr_dir lo hi pls delay.
Proof.
  induction pls as [|pl rest IH]; intros H delay; [done |].
  cbn [planets_loop].
  rewrite (add_object_delay_agree toas toas') by (apply H, list_elem_of_here).
  destruct (add_object_delay (table_rows toas lo hi) _ lo hi delay _ pl); [| done].
  cbn [rbind]. apply IH. intros pl' Hpl'. apply H. by apply list_elem_of_further.
Qed.

Lemma group_body_agree (toas toas' : Table) (ii : nat) (key : string) (delay : list num)
    (s : State) :
  same_used_data (value (self_PLANET_SHAPIRO s)) toas toas' ->
  group_body toas' ii key delay s = group_body toas ii key delay s.
Proof.
  intros (Htdbld & _ & Hind & Hcols).
  destruct (groups_indices toas !! ii) as [lo|] eqn:Hlo;
    [| rewrite !group_body_index_error by (rewrite ?Hind; auto); done].
  destruct (groups_indices toas !! S ii) as [hi|] eqn:Hhi;
    [| rewrite !group_body_index_error by (rewrite ?Hind; auto); done].
  rewrite !(group_body_eq _ _ _ _ _ lo hi) by (rewrite ?Hind; done).
  destruct (String.eqb key "Barycenter"); [done |].
  cbn zeta. cbn [table_rows g_tdbld]. rewrite Htdbld.
  rewrite (add_object_delay_agree toas toas') by (apply Hcols, list_elem_of_here).
  destruct (add_object_delay (table_rows toas lo hi) _ lo hi delay _ "sun"); [| done].
  cbn [rbind].
  destruct (value (self_PLANET_SHAPIRO s)); [| done].
  f_equal. apply planets_loop_agree.
  intros pl Hpl. apply Hcols. unfold used_fields. apply list_elem_of_further.
  unfold planets in Hpl.
  repeat (apply elem_of_cons in Hpl as [-> | Hpl];
          [repeat first [apply list_elem_of_here | apply list_elem_of_further] |]).
  by apply elem_of_nil in Hpl.
Qed.

Lemma groups_loop_agree (toas toas' : Table) (rest : list string) :
  forall (ii : nat) (delay : list num) (s : State),
    same_used_data (value (self_PLANET_SHAPIRO s)) toas toas' ->
    groups_loop toas' ii rest delay s = groups_loop toas ii rest delay s.
Proof.
  induction rest as [|key rest IH]; intros ii delay s H; [done |].
  cbn [groups_loop]. unfold sbind. rewrite (group_body_agree toas toas') by done.
  destruct (group_body toas ii key delay s) as [[d1|e] s1] eqn:E; [| done].
  apply IH.
  apply group_body_frame in E as (lo & hi & _ & _ & _ & _ & _ & ->). done.
Qed.

(** ** The state *)

Lemma groups_loop_state (toas : Table) (rest : list string) :
  forall (ii : nat) (delay : list num) (s1 s2 : State),
    value (self_PLANET_SHAPIRO s1) = value (self_PLANET_SHAPIRO s2) ->
    (groups_loop toas ii rest delay s1).1 = (groups_loop toas ii rest delay s2).1 /\
    self_PLANET_SHAPIRO (groups_loop toas ii rest delay s1).2 = self_PLANET_SHAPIRO s1.
Proof.
  induction rest as [|key rest IH]; intros ii delay s1 s2 Hv; [done |].
  cbn [groups_loop]. unfold sbind.
  destruct (group_body_state toas ii key delay s1 s2 Hv) as [H1 H2].
  destruct (group_body_state toas ii key delay s2 s1 (eq_sym Hv)) as [_ H3].
  destruct (group_body toas ii key delay s1) as [r1 s1'].
  destruct (group_body toas ii key delay s2) as [r2 s2'].
  cbn [fst snd] in *. subst r2.
  destruct r1 as [d1|e]; [| done].
  destruct (IH (S ii) d1 s1' s2') as [IH1 IH2]; [congruence |].
  split; [done | congruence].
Qed.

(** ** A missing planet column *)

Lemma planets_loop_missing (grp : Group) (psr_dir : list vec3) (lo hi : nat)
    (pls : list string) (pl : string) :
  pl ∈ pls ->
  g_columns grp !! ("obs_" +:+ pl +:+ "_pos") = None ->
  forall delay : list num,
    exists e : exn, planets_loop grp psr_dir lo hi pls delay = Raise e.
Proof.
  intros Hin Hnone. induction pls as [|pl' rest IH]; intros delay.
  - by apply elem_of_nil in Hin.
  - cbn [planets_loop].
    destruct (add_object_delay grp psr_dir lo hi delay ("obs_" +:+ pl' +:+ "_pos") pl')
      as [d1|e] eqn:E; [| by exists e].
    cbn [rbind]. apply elem_of_cons in Hin as [<- | Hin]; [| by apply IH].
    unfold add_object_delay, getitem in E. rewrite Hnone in E. discriminate E.
Qed.

Lemma group_body_missing (toas : Table) (ii : nat) (key : string) (delay : list num)
    (s : State) (pl : string) :
  String.eqb key "Barycenter" = false ->
  value (self_PLANET_SHAPIRO s) = true ->
  pl ∈ planets ->
  columns toas !! ("obs_" +:+ pl +:+ "_pos") = None ->
  exists (e : exn) (s' : State), group_body toas ii key delay s = (Raise e, s').
Proof.
  intros Hkey Hflag Hin Hnone.
  destruct (groups_indices toas !! ii) as [lo|] eqn:Hlo;
    [| rewrite group_body_index_error by auto; eauto].
  destruct (groups_indices toas !! S ii) as [hi|] eqn:Hhi;
    [| rewrite group_body_index_error by auto; eauto].
  rewrite (group_body_eq _ _ _ _ _ lo hi), Hkey, Hflag by done. cbn zeta.
  destruct (add_object_delay _ _ lo hi delay "obs_sun_pos" "sun") as [d1|e]; [| eauto].
  cbn [rbind].
  destruct (planets_loop_missing (table_rows toas lo hi)
              (ssb_to_psb_xyz (astype_float64 (g_tdbld (table_rows toas lo hi))))
              lo hi planets pl Hin) with (delay := d1) as [e He].
  - cbn [table_rows g_columns]. by rewrite lookup_fmap, Hnone.
  - rewrite He. eauto.
Qed.

Lemma groups_loop_missing (toas : Table) (pl : string) (rest : list string) :
  pl ∈ planets ->
  columns toas !! ("obs_" +:+ pl +:+ "_pos") = None ->
  forall (ii : nat) (delay : list num) (s : State),
    value (self_PLANET_SHAPIRO s) = true ->
    (exists (j : nat) (key : string), rest !! j = Some key /\ key <> "Barycenter") ->
    exists (e : exn) (s' : State), groups_loop toas ii rest delay s = (Raise e, s').
Proof.
  intros Hin Hnone.
  induction rest as [|key rest IH]; intros ii delay s Hflag (j & key' & Hj & Hne).
  - by destruct j.
  - cbn [groups_loop]. unfold sbind.
    destruct (group_body toas ii key delay s) as [[d1|e] s1] eqn:E; [| eauto].
    destruct j as [|j].
    + cbn in Hj. injection Hj as ->.
      destruct (group_body_missing toas ii key' delay s pl) as (e & s' & He); try done.
      * by apply String.eqb_neq.
      * rewrite He in E. discriminate E.
    + apply group_body_frame in E as (lo & hi & _ & _ & _ & _ & _ & ->).
      apply IH; [done | eauto].
Qed.

(** With a well-formed table and the column of the Sun, the exception is the
    [KeyError] of the first planet whose column is absent. *)
Lemma planets_loop_key_error (toas : Table) (lo hi : nat) (delay : list num) (pl : string) :
  wf_table toas -> provider_ok ->
  length delay = len toas ->
  pl ∈ planets ->
  columns toas !! ("obs_" +:+ pl +:+ "_pos") = None ->
  exists pl' : string,
    pl' ∈ planets /\
    columns toas !! ("obs_" +:+ pl' +:+ "_pos") = None /\
    planets_loop (table_rows toas lo hi)
      (ssb_to_psb_xyz (astype_float64 (g_tdbld (table_rows toas lo hi)))) lo hi planets delay
    = Raise (KeyError ("obs_" +:+ pl' +:+ "_pos")).
Proof.
  intros Hwf Hprov Hlen Hin Hnone.
  destruct mass_getitem_known as (_ & Mjup & Msat & Mven & Mura).
  cbn [planets_loop planets].
  destruct (columns toas !! "obs_jupiter_pos") as [cj|] eqn:Hj.
  2:{ exists "jupiter". split; [apply list_elem_of_here |]. split; [done |].
      change ("obs_" +:+ "jupiter" +:+ "_pos") with "obs_jupiter_pos".
      by rewrite add_object_delay_missing. }
  change ("obs_" +:+ "jupiter" +:+ "_pos") with "obs_jupiter_pos".
  rewrite (add_object_delay_ok toas lo hi _ _ _ cj Tjupiter); try done;
    [| by apply (wf_columns _ Hwf "obs_jupiter_pos")].
  cbn [rbind].
  destruct (columns toas !! "obs_saturn_pos") as [cs|] eqn:Hs.
  2:{ exists "saturn". split; [apply list_elem_of_further, list_elem_of_here |].
      split; [done |].
      change ("obs_" +:+ "saturn" +:+ "_pos") with "obs_saturn_pos".
      by rewrite add_object_delay_missing. }
  change ("obs_" +:+ "saturn" +:+ "_pos") with "obs_saturn_pos".
  rewrite (add_object_delay_ok toas lo hi _ _ _ cs Tsaturn); try done;
    [| by apply (wf_columns _ Hwf "obs_saturn_pos") | by rewrite !length_add_on_range].
  cbn [rbind].
  destruct (columns toas !! "obs_venus_pos") as [cv|] eqn:Hv.
  2:{ exists "venus".
      split; [apply list_elem_of_further, list_elem_of_further, list_elem_of_here |].
      split; [done |].
      change ("obs_" +:+ "venus" +:+ "_pos") with "obs_venus_pos".
      by rewrite add_object_delay_missing. }
  change ("obs_" +:+ "venus" +:+ "_pos") with "obs_venus_pos".
  rewrite (add_object_delay_ok toas lo hi _ _ _ cv Tvenus); try done;
    [| by apply (wf_columns _ Hwf "obs_venus_pos") | by rewrite !length_add_on_range].
  cbn [rbind].
  destruct (columns toas !! "obs_uranus_pos") as [cu|] eqn:Hu.
  2:{ exists "uranus".
      split; [do 3 apply list_elem_of_further; apply list_elem_of_here |].
      split; [done |].
      change ("obs_" +:+ "uranus" +:+ "_pos") with "obs_uranus_pos".
      by rewrite add_object_delay_missing. }
  exfalso. unfold planets in Hin.
  apply elem_of_cons in Hin as [-> | Hin];
    [change (columns toas !! "obs_jupiter_pos" = None) in Hnone; congruence |].
  apply elem_of_cons in Hin as [-> | Hin];
    [change (columns toas !! "obs_saturn_pos" = None) in Hnone; congruence |].
  apply elem_of_cons in Hin as [-> | Hin];
    [change (columns toas !! "obs_venus_pos" = None) in Hnone; congruence |].
  apply elem_of_cons in Hin as [-> | Hin];
    [change (columns toas !! "obs_uranus_pos" = None) in Hnone; congruence |].
  by apply elem_of_nil in Hin.
Qed.

Lemma groups_loop_key_error (toas : Table) (pl : string) (rest : list string) :
  wf_table toas -> provider_ok ->
  is_Some (columns toas !! "obs_sun_pos") ->
  pl ∈ planets ->
  columns toas !! ("obs_" +:+ pl +:+ "_pos") = None ->
  forall (ii : nat) (delay : list num) (s : State),
    value (self_PLANET_SHAPIRO s) = true ->
    ii + length rest < length (groups_indices toas) ->
    length delay = len toas ->
    (exists (j : nat) (key : string), rest !! j = Some key /\ key <> "Barycenter") ->
    exists (pl' : string) (s' : State),
      pl' ∈ planets /\
      columns toas !! ("obs_" +:+ pl' +:+ "_pos") = None /\
      groups_loop toas ii rest delay s = (Raise (KeyError ("obs_" +:+ pl' +:+ "_pos")), s').
Proof.
  intros Hwf Hprov [csun Hsun] Hin Hnone.
  induction rest as [|key rest IH]; intros ii delay s Hflag Hii Hlen (j & key' & Hj & Hne).
  - by destruct j.
  - cbn [length] in Hii.
    destruct (lookup_lt_is_Some_2 (groups_indices toas) ii) as [lo Hlo]; [lia |].
    destruct (lookup_lt_is_Some_2 (groups_indices toas) (S ii)) as [hi Hhi]; [lia |].
    cbn [groups_loop]. unfold sbind.
    rewrite (group_body_eq _ _ _ _ _ lo hi) by done.
    destruct (String.eqb key "Barycenter") eqn:Hkey.
    + apply IH; [done | lia | done |].
      destruct j as [|j]; [| eauto].
      cbn in Hj. injection Hj as ->. apply String.eqb_eq in Hkey. done.
    + cbn zeta. rewrite Hflag.
      destruct mass_getitem_known as (Msun & _).
      rewrite (add_object_delay_ok toas lo hi delay _ _ csun Tsun);
        try done; [| by apply (wf_columns _ Hwf "obs_sun_pos")].
      cbn [rbind].
      destruct (planets_loop_key_error toas lo hi
                  (add_on_range lo hi (object_term toas lo hi "obs_sun_pos" Tsun) delay) pl)
        as (pl' & Hin' & Hnone' & E); try done; [by rewrite length_add_on_range |].
      rewrite E. eauto.
Qed.

(** ** The delay function *)

Lemma groups_loop_all_barycenter (toas : Table) (rest : list string) :
  (forall key : string, key ∈ rest -> key = "Barycenter") ->
  forall (ii : nat) (delay : list num) (s : State),
    ii + length rest < length (groups_indices toas) ->
    groups_loop toas ii rest delay s
    = (Ok delay,
       mkState (self_PLANET_SHAPIRO s)
         (log_records s ++ replicate (length rest) skip_record)).
Proof.
  induction rest as [|key rest IH]; intros Hall ii delay s Hii.
  - cbn. unfold mpure. destruct s. cbn. by rewrite app_nil_r.
  - cbn [length] in Hii.
    destruct (lookup_lt_is_Some_2 (groups_indices toas) ii) as [lo Hlo]; [lia |].
    destruct (lookup_lt_is_Some_2 (groups_indices toas) (S ii)) as [hi Hhi]; [lia |].
    cbn [groups_loop]. unfold sbind.
    rewrite (group_body_eq _ _ _ _ _ lo hi) by done.
    rewrite (Hall key) by apply list_elem_of_here. cbn [String.eqb Ascii.eqb Bool.eqb].
    rewrite IH; [| intros k Hk; by apply Hall, list_elem_of_further | lia].
    cbn [self_PLANET_SHAPIRO log_records length]. do 2 f_equal.
    by rewrite <- app_assoc.
Qed.

(** C3: a group of the observatory "Barycenter" is skipped, which is no
    error: its body returns the vector unchanged and logs one INFO record;
    in the vector that a call returns, every row of such a group is zero,
    whatever the position columns hold; and a table with barycentric groups
    only gives the zero vector even without any position column. *)
Theorem barycenter_skip (toas : Table) (s : State) :
  (forall (ii lo hi : nat) (delay : list num),
     groups_indices toas !! ii = Some lo ->
     groups_indices toas !! S ii = Some hi ->
     group_body toas ii "Barycenter" delay s
     = (Ok delay, mkState (self_PLANET_SHAPIRO s) (log_records s ++ [skip_record]))) /\
  (forall (delay : list num) (s' : State),
     indices_sorted toas ->
     solar_system_shapiro_delay toas s = (Ok delay, s') ->
     (forall (ii lo hi i : nat),
        groups_keys toas !! ii = Some "Barycenter" ->
        groups_indices toas !! ii = Some lo ->
        groups_indices toas !! S ii = Some hi ->
        lo <= i < hi -> i < len toas ->
        delay !! i = Some (Finite 0)) /\
     log_records s' = (log_records s ++ replicate (skipped (groups_keys toas)) skip_record)%list) /\
  ((forall key : string, key ∈ groups_keys toas -> key = "Barycenter") ->
   length (groups_keys toas) < length (groups_indices toas) ->
   solar_system_shapiro_delay toas s
   = (Ok (replicate (len toas) (Finite 0)),
      mkState (self_PLANET_SHAPIRO s)
        (log_records s ++ replicate (length (groups_keys toas)) skip_record))).
Proof.
  split; [| split].
  - intros ii lo hi delay Hlo Hhi. by rewrite (group_body_eq _ _ _ _ _ lo hi).
  - intros delay s' Hsorted H. unfold solar_system_shapiro_delay in H. cbn zeta in H.
    apply groups_loop_frame in H as (_ & Hframe & ->). split; [| done].
    intros ii lo hi i Hkey Hlo Hhi Hi Hn.
    rewrite Hframe; [by apply lookup_replicate_2 |].
    intros j key lo' hi' Hkey' Hne Hlo' Hhi'. cbn in Hlo', Hhi'.
    destruct (decide (j = ii)) as [-> | Hji]; [congruence |].
    destruct (decide (j < ii)).
    + assert (hi' <= lo) by (apply (indices_mono_le toas Hsorted ii (S j)); [lia | done | done]).
      lia.
    + assert (hi <= lo') by (apply (indices_mono_le toas Hsorted j (S ii)); [lia | done | done]).
      lia.
  - intros Hall Hlen. unfold solar_system_shapiro_delay. cbn zeta.
    by apply groups_loop_all_barycenter.
Qed.

Lemma object_term_eq (toas : Table) (lo hi : nat) (field : string) (T : R) (i : nat)
    (c : Quantity (list vec3)) (p d : vec3) :
  columns toas !! field = Some c ->
  qvalue c !! i = Some p ->
  ssb_to_psb_xyz (py_slice lo hi (tdbld toas)) !! (i - lo) = Some d ->
  object_term toas lo hi field T i = shapiro_formula (qunit c) p d T.
Proof. intros Hc Hp Hd. unfold object_term. by rewrite Hc, Hp, Hd. Qed.

Lemma unused_field (flag : bool) (body field : string) :
  body ∈ ["mercury"; "earth"; "mars"; "neptune"] ->
  field ∈ used_fields flag ->
  "obs_" +:+ body +:+ "_pos" <> field.
Proof.
  intros Hb Hf.
  assert (Hf' : field ∈ used_fields true).
  { destruct flag; [done |]. unfold used_fields in Hf.
    apply elem_of_cons in Hf as [-> | Hf]; [apply list_elem_of_here |].
    by apply elem_of_nil in Hf. }
  unfold used_fields in Hf'.
  rewrite !elem_of_cons, elem_of_nil in Hb. rewrite !elem_of_cons, elem_of_nil in Hf'.
  destruct Hb as [-> | [-> | [-> | [-> | []]]]];
    destruct Hf' as [-> | [-> | [-> | [-> | [-> | []]]]]];
    intros H; vm_compute in H; discriminate H.
Qed.

Lemma same_used_data_refl (flag : bool) (toas : Table) : same_used_data flag toas toas.
Proof. by repeat split. Qed.

(** C2: with [PLANET_SHAPIRO] false, a row of a group of another than the
    barycentric observatory holds the delay of the Sun alone; with
    [PLANET_SHAPIRO] true it holds the delay of the Sun plus those of Jupiter,
    Saturn, Venus and Uranus, in this order; and a position column that is
    not one of these, such as those of Mercury, the Earth, Mars and Neptune,
    whether present, absent or changed, never alters what the call returns. *)
Theorem planet_shapiro_toggle (toas : Table) (s : State) :
  (forall toas' : Table,
     same_used_data (value (self_PLANET_SHAPIRO s)) toas toas' ->
     solar_system_shapiro_delay toas' s = solar_system_shapiro_delay toas s) /\
  (forall (body : string) (c : Quantity (list vec3)),
     body ∈ ["mercury"; "earth"; "mars"; "neptune"] ->
     solar_system_shapiro_delay
       (with_columns toas (<["obs_" +:+ body +:+ "_pos" := c]> (columns toas))) s
     = solar_system_shapiro_delay toas s /\
     solar_system_shapiro_delay
       (with_columns toas (delete ("obs_" +:+ body +:+ "_pos") (columns toas))) s
     = solar_system_shapiro_delay toas s) /\
  (wf_table toas -> provider_ok ->
   (forall field : string,
      field ∈ used_fields (value (self_PLANET_SHAPIRO s)) -> is_Some (columns toas !! field)) ->
   exists (delay : list num) (s' : State),
     solar_system_shapiro_delay toas s = (Ok delay, s') /\
     forall (ii : nat) (key : string) (lo hi i : nat) (d : vec3)
            (csun : Quantity (list vec3)) (psun : vec3),
       groups_keys toas !! ii = Some key -> key <> "Barycenter" ->
       groups_indices toas !! ii = Some lo ->
       groups_indices toas !! S ii = Some hi ->
       lo <= i < hi ->
       ssb_to_psb_xyz (py_slice lo hi (tdbld toas)) !! (i - lo) = Some d ->
       columns toas !! "obs_sun_pos" = Some csun -> qvalue csun !! i = Some psun ->
       let sun := shapiro_formula (qunit csun) psun d Tsun in
       (value (self_PLANET_SHAPIRO s) = false -> delay !! i = Some sun) /\
       (value (self_PLANET_SHAPIRO s) = true ->
        forall (cj cs cv cu : Quantity (list vec3)) (pj ps pv pu : vec3),
          columns toas !! "obs_jupiter_pos" = Some cj -> qvalue cj !! i = Some pj ->
          columns toas !! "obs_saturn_pos" = Some cs -> qvalue cs !! i = Some ps ->
          columns toas !! "obs_venus_pos" = Some cv -> qvalue cv !! i = Some pv ->
          columns toas !! "obs_uranus_pos" = Some cu -> qvalue cu !! i = Some pu ->
          delay !! i
          = Some (nadd (nadd (nadd (nadd sun (shapiro_formula (qunit cj) pj d Tjupiter))
                                (shapiro_formula (qunit cs) ps d Tsaturn))
                          (shapiro_formula (qunit cv) pv d Tvenus))
                    (shapiro_formula (qunit cu) pu d Turanus)))).
Proof.
  split; [| split].
  - intros toas' H. unfold solar_system_shapiro_delay. cbn zeta.
    destruct H as (Htdbld & Hkeys & Hrest).
    unfold len. rewrite Htdbld, Hkeys.
    apply groups_loop_agree. exact (conj Htdbld (conj Hkeys Hrest)).
  - intros body c Hbody.
    split; unfold solar_system_shapiro_delay; cbn zeta;
      (etransitivity; [apply (groups_loop_agree toas) |]; [| done]);
      (split; [done | split; [done | split; [done |]]]);
      intros field Hfield; cbn [with_columns columns].
    + apply lookup_insert_ne. by apply (unused_field (value (self_PLANET_SHAPIRO s))).
    + apply lookup_delete_ne. by apply (unused_field (value (self_PLANET_SHAPIRO s))).
  - intros Hwf Hprov Hcols.
    destruct (groups_loop_ok toas (value (self_PLANET_SHAPIRO s)) (groups_keys toas)
                Hwf Hprov Hcols 0 (replicate (len toas) (Finite 0)) s)
      as (delay & E & Hlen & _ & Hrows).
    { done. }
    { rewrite (wf_indices_length _ Hwf). cbn. lia. }
    { apply length_replicate. }
    exists delay. eexists. split; [exact E |].
    intros ii key lo hi i d csun psun Hkey Hne Hlo Hhi Hi Hd Hsun Hpsun sun.
    assert (Hin : i < len toas).
    { rewrite <- (wf_columns _ Hwf _ _ Hsun). by apply lookup_lt_Some in Hpsun. }
    specialize (Hrows ii key lo hi i Hkey Hlo Hhi Hi).
    rewrite lookup_replicate_2 in Hrows by done. cbn in Hrows.
    unfold row_update, row_terms in Hrows.
    assert (Hzero : forall a : num, nadd (Finite 0) a = a).
    { intros [x|]; [| done]. cbn. by rewrite Rplus_0_l. }
    apply String.eqb_neq in Hne. rewrite Hne in Hrows.
    rewrite (object_term_eq toas lo hi _ _ _ csun psun d) in Hrows by done.
    split.
    + intros Hflag. rewrite Hflag in Hrows. cbn [foldl] in Hrows.
      by rewrite Hzero in Hrows.
    + intros Hflag cj cs cv cu pj ps pv pu Hcj Hpj Hcs Hps Hcv Hpv Hcu Hpu.
      rewrite Hflag in Hrows. cbn [foldl] in Hrows. rewrite Hzero in Hrows.
      rewrite (object_term_eq toas lo hi _ _ _ cj pj d),
        (object_term_eq toas lo hi _ _ _ cs ps d),
        (object_term_eq toas lo hi _ _ _ cv pv d),
        (object_term_eq toas lo hi _ _ _ cu pu d) in Hrows by done.
      exact Hrows.
Qed.

(** C4: the vector that a call returns has one element for each observation;
    the accumulation starts from the zero vector; whatever the vector holds
    when the loop starts, the loop keeps its length, leaves every element
    outside the rows of the groups as it is, and makes of an element [v] of a
    row of a group the sum of [v] and of the delays of that row, each added in
    turn. *)
Theorem delay_vector_invariant (toas : Table) (s : State) :
  (forall (delay : list num) (s' : State),
     solar_system_shapiro_delay toas s = (Ok delay, s') -> length delay = len toas) /\
  solar_system_shapiro_delay toas s
  = groups_loop toas 0 (groups_keys toas) (replicate (len toas) (Finite 0)) s /\
  (forall (delay0 delay' : list num) (s' : State),
     groups_loop toas 0 (groups_keys toas) delay0 s = (Ok delay', s') ->
     length delay' = length delay0 /\
     forall i : nat,
       (forall (ii : nat) (key : string) (lo hi : nat),
          groups_keys toas !! ii = Some key -> key <> "Barycenter" ->
          groups_indices toas !! ii = Some lo ->
          groups_indices toas !! S ii = Some hi ->
          ~ (lo <= i < hi)) ->
       delay' !! i = delay0 !! i) /\
  (wf_table toas -> provider_ok ->
   (forall field : string,
      field ∈ used_fields (value (self_PLANET_SHAPIRO s)) -> is_Some (columns toas !! field)) ->
   forall delay0 : list num,
     length delay0 = len toas ->
     exists (delay' : list num) (s' : State),
       groups_loop toas 0 (groups_keys toas) delay0 s = (Ok delay', s') /\
       length delay' = len toas /\
       forall (ii : nat) (key : string) (lo hi i : nat),
         groups_keys toas !! ii = Some key ->
         groups_indices toas !! ii = Some lo ->
         groups_indices toas !! S ii = Some hi ->
         lo <= i < hi ->
         delay' !! i
         = (fun v : num =>
              foldl nadd v (row_terms toas (value (self_PLANET_SHAPIRO s)) key lo hi i))
           <$> delay0 !! i).
Proof.
  split; [| split; [done | split]].
  - intros delay s' H. unfold solar_system_shapiro_delay in H. cbn zeta in H.
    apply groups_loop_frame in H as (H & _). by rewrite H, length_replicate.
  - intros delay0 delay' s' H.
    apply groups_loop_frame in H as (H1 & H2 & _). split; [done |].
    intros i Hi. apply H2. intros j key lo hi. apply Hi.
  - intros Hwf Hprov Hcols delay0 Hlen.
    destruct (groups_loop_ok toas (value (self_PLANET_SHAPIRO s)) (groups_keys toas)
                Hwf Hprov Hcols 0 delay0 s)
      as (delay' & E & Hlen' & _ & Hrows).
    { done. }
    { rewrite (wf_indices_length _ Hwf). cbn. lia. }
    { done. }
    exists delay'. eexists. split; [exact E |]. split; [done |].
    intros ii key lo hi i Hkey Hlo Hhi Hi.
    by apply (Hrows ii key lo hi i).
Qed.

(** C5: with [PLANET_SHAPIRO] true and a group of another than the
    barycentric observatory, a table that lacks the position column of
    Jupiter, Saturn, Venus or Uranus makes the call raise, never return a
    vector; on a well-formed table that has the column of the Sun the
    exception is the [KeyError] of the column of an absent planet. *)
Theorem missing_planet_raises (toas : Table) (s : State) (pl : string) :
  value (self_PLANET_SHAPIRO s) = true ->
  pl ∈ planets ->
  columns toas !! ("obs_" +:+ pl +:+ "_pos") = None ->
  (exists (ii : nat) (key : string), groups_keys toas !! ii = Some key /\ key <> "Barycenter") ->
  (exists (e : exn) (s' : State), solar_system_shapiro_delay toas s = (Raise e, s')) /\
  (wf_table toas -> provider_ok -> is_Some (columns toas !! "obs_sun_pos") ->
   exists (pl' : string) (s' : State),
     pl' ∈ planets /\
     columns toas !! ("obs_" +:+ pl' +:+ "_pos") = None /\
     solar_system_shapiro_delay toas s = (Raise (KeyError ("obs_" +:+ pl' +:+ "_pos")), s')).
Proof.
  intros Hflag Hin Hnone Hgroup. unfold solar_system_shapiro_delay. cbn zeta. split.
  - by apply (groups_loop_missing toas pl).
  - intros Hwf Hprov Hsun.
    apply (groups_loop_key_error toas pl); try done.
    + rewrite (wf_indices_length _ Hwf). cbn. lia.
    + apply length_replicate.
Qed.

(** C6: what a call returns is a function of the table and of the value of
    [PLANET_SHAPIRO] alone: two states with the same value give the same
    result, whatever else they hold; a call leaves the parameter as it was;
    and a second call, in the state the first one left, returns what the first
    one returned. *)
Theorem delay_deterministic (toas : Table) (s1 s2 : State) :
  value (self_PLANET_SHAPIRO s1) = value (self_PLANET_SHAPIRO s2) ->
  (solar_system_shapiro_delay toas s1).1 = (solar_system_shapiro_delay toas s2).1 /\
  self_PLANET_SHAPIRO (solar_system_shapiro_delay toas s1).2 = self_PLANET_SHAPIRO s1 /\
  (solar_system_shapiro_delay toas (solar_system_shapiro_delay toas s1).2).1
  = (solar_system_shapiro_delay toas s1).1.
Proof.
  intros Hv. unfold solar_system_shapiro_delay. cbn zeta.
  destruct (groups_loop_state toas (groups_keys toas) 0
              (replicate (len toas) (Finite 0)) s1 s2 Hv) as [H1 H2].
  split; [done |]. split; [done |].
  apply groups_loop_state. by rewrite H2.
Qed.

(** * Further properties of the delay of one object *)

(** ** Shapes *)

Lemma broadcast_one_r {A B C} (f : A -> B -> C) (a : list A) (y : B) :
  broadcast f a [y] = Ok (map (fun x => f x y) a).
Proof.
  unfold broadcast. by destruct a as [|x [|x' a]].
Qed.

Lemma broadcast_one_l {A B C} (f : A -> B -> C) (x : A) (b : list B) :
  broadcast f [x] b = Ok (map (f x) b).
Proof.
  unfold broadcast. by destruct b as [|y [|y' b]].
Qed.

Lemma broadcast_mismatch {A B C} (f : A -> B -> C) (a : list A) (b : list B) :
  length a <> length b -> length a <> 1 -> length b <> 1 ->
  broadcast f a b = Raise ValueError.
Proof.
  intros Hab Ha Hb. unfold broadcast. rewrite decide_False by done.
  destruct a as [|x [|x' a]], b as [|y [|y' b]]; done.
Qed.

Ltac array_length :=
  repeat first [rewrite length_map | rewrite length_sum_axis1
               | rewrite length_zip_with | rewrite length_replicate].

(** X1: [ss_obj_shapiro_delay] accepts a position array of n rows and a
    direction array of m rows exactly when n = m, n = 1 or m = 1; the result
    then has m rows when n = 1 and n rows otherwise; any other pair of shapes
    raises [ValueError].  The empty arrays give the empty result. *)
Theorem ss_obj_shapiro_delay_shapes
    (obj_pos : Quantity (list vec3)) (psr_dir : list vec3) (T_obj : R) :
  let n := length (qvalue obj_pos) in
  let m := length psr_dir in
  (n = m \/ n = 1 \/ m = 1 <->
   exists delay : list num,
     ss_obj_shapiro_delay obj_pos psr_dir T_obj = Ok delay /\
     length delay = if decide (n = 1) then m else n) /\
  (~ (n = m \/ n = 1 \/ m = 1) <->
   ss_obj_shapiro_delay obj_pos psr_dir T_obj = Raise ValueError).
Proof.
  intros n m.
  assert (Hok : n = m \/ n = 1 \/ m = 1 ->
            exists delay : list num,
              ss_obj_shapiro_delay obj_pos psr_dir T_obj = Ok delay /\
              length delay = if decide (n = 1) then m else n).
  { intros H. destruct (decide (n = m)) as [Hnm | Hnm].
    - rewrite ss_obj_shapiro_delay_rows by done. eexists. split; [done |].
      rewrite length_zip_with. fold n m. case_decide; lia.
    - destruct obj_pos as [ps u]. cbn [qvalue] in *. unfold ss_obj_shapiro_delay.
      cbn [qvalue qunit].
      destruct (decide (n = 1)) as [Hn | Hn].
      + destruct ps as [|p [|p' ps]]; try done.
        rewrite broadcast_one_l. cbn [rbind map sum_axis1].
        rewrite broadcast_one_l. cbn [rbind]. eexists. split; [done |].
        unfold numpy_log_value, qdiv. cbn [qvalue].
        array_length. done.
      + assert (m = 1) as Hm by lia.
        destruct psr_dir as [|d [|d' ds]]; try done.
        rewrite broadcast_one_r. cbn [rbind].
        rewrite broadcast_same_length by (array_length; done).
        cbn [rbind]. eexists. split; [done |].
        unfold numpy_log_value, qdiv. cbn [qvalue].
        array_length. fold n. lia. }
  assert (Herr : ~ (n = m \/ n = 1 \/ m = 1) ->
            ss_obj_shapiro_delay obj_pos psr_dir T_obj = Raise ValueError).
  { intros H. unfold ss_obj_shapiro_delay.
    rewrite broadcast_mismatch; [done | fold n m; lia ..]. }
  split.
  - split; [exact Hok |].
    intros (delay & E & _). destruct (decide (n = m \/ n = 1 \/ m = 1)) as [H | H]; [done |].
    rewrite Herr in E by done. discriminate E.
  - split; [exact Herr |].
    intros E H. destruct (Hok H) as (delay & E' & _). rewrite E in E'. discriminate E'.
Qed.

(** X2: a direction array of one row is applied to every position row, and a
    position array of one row is combined with every direction row. *)
Theorem ss_obj_shapiro_delay_broadcast
    (u : posreal) (ps : list vec3) (ds : list vec3) (p d : vec3) (T_obj : R) :
  ss_obj_shapiro_delay (mkQuantity ps u) [d] T_obj
  = Ok (map (fun p' => shapiro_formula u p' d T_obj) ps) /\
  ss_obj_shapiro_delay (mkQuantity [p] u) ds T_obj
  = Ok (map (fun d' => shapiro_formula u p d' T_obj) ds).
Proof.
  split; unfold ss_obj_shapiro_delay; cbn [qvalue qunit].
  - rewrite broadcast_one_r. cbn [rbind].
    rewrite broadcast_same_length by (array_length; done).
    cbn [rbind]. f_equal. unfold numpy_log_value, qdiv, sum_axis1. cbn [qvalue qunit].
    induction ps as [|p' ps IH]; [done |].
    cbn [map zip_with]. f_equal; [apply shapiro_row | apply IH].
  - rewrite broadcast_one_l. cbn [rbind map sum_axis1].
    rewrite broadcast_one_l. cbn [rbind]. f_equal.
    unfold numpy_log_value, qdiv, sum_axis1. cbn [qvalue qunit].
    induction ds as [|d' ds IH]; [done |].
    cbn [map]. f_equal; [apply shapiro_row | apply IH].
Qed.

(** ** Sign, mass and unit *)

Lemma ln_sign (y : R) :
  (0 < y)%R ->
  ((0 < ln y <-> 1 < y) /\ (ln y = 0 <-> y = 1) /\ (ln y < 0 <-> y < 1))%R.
Proof.
  intros Hy.
  assert (H1 : (1 < y -> 0 < ln y)%R).
  { intros H. rewrite <- ln_1. apply ln_increasing; lra. }
  assert (H2 : (y < 1 -> ln y < 0)%R).
  { intros H. rewrite <- ln_1. by apply ln_increasing. }
  assert (H3 : (y = 1 -> ln y = 0)%R) by (intros ->; apply ln_1).
  repeat split; try done; intros H;
    destruct (Rtotal_order y 1) as [Hlt | [Heq | Hgt]];
    try done; try (specialize (H1 Hgt)); try (specialize (H2 Hlt));
    try (specialize (H3 Heq)); lra.
Qed.

(** X4: for a positive mass and a positive [r - rcostheta], the delay of a
    row is positive when [r - rcostheta] is below one astronomical unit, zero
    when it is one astronomical unit and negative when it is above. *)
Theorem ss_obj_shapiro_delay_sign
    (obj_pos : Quantity (list vec3)) (psr_dir : list vec3) (T_obj : R) :
  length (qvalue obj_pos) = length psr_dir ->
  (0 < T_obj)%R ->
  exists delay : list num,
    ss_obj_shapiro_delay obj_pos psr_dir T_obj = Ok delay /\
    forall (i : nat) (p d : vec3),
      qvalue obj_pos !! i = Some p -> psr_dir !! i = Some d ->
      (0 < impact_length (qunit obj_pos) p d)%R ->
      exists x : R,
        delay !! i = Some (Finite x) /\
        ((0 < x <-> impact_length (qunit obj_pos) p d < one_astronomical_unit) /\
         (x = 0 <-> impact_length (qunit obj_pos) p d = one_astronomical_unit) /\
         (x < 0 <-> one_astronomical_unit < impact_length (qunit obj_pos) p d))%R.
Proof.
  intros Hlen HT. eexists. split; [by apply ss_obj_shapiro_delay_rows |].
  intros i p d Hp Hd Himp.
  rewrite lookup_zip_with, Hp, Hd. cbn.
  rewrite shapiro_formula_finite by done. eexists. split; [done |].
  pose proof one_astronomical_unit_pos as Hau.
  set (a := impact_length (qunit obj_pos) p d) in *.
  assert (Hq : (0 < a / one_astronomical_unit)%R) by (by apply Rdiv_lt_0_compat).
  destruct (ln_sign _ Hq) as (L1 & L2 & L3).
  assert (Q1 : (a / one_astronomical_unit < 1 <-> a < one_astronomical_unit)%R).
  { split; intros H.
    - apply (Rmult_lt_compat_r one_astronomical_unit) in H; [| done].
      unfold Rdiv in H. rewrite Rmult_assoc, Rinv_l in H by lra. lra.
    - apply (Rmult_lt_reg_r one_astronomical_unit); [done |].
      unfold Rdiv. rewrite Rmult_assoc, Rinv_l by lra. lra. }
  assert (Q2 : (1 < a / one_astronomical_unit <-> one_astronomical_unit < a)%R).
  { split; intros H.
    - apply (Rmult_lt_compat_r one_astronomical_unit) in H; [| done].
      unfold Rdiv in H. rewrite Rmult_assoc, Rinv_l in H by lra. lra.
    - apply (Rmult_lt_reg_r one_astronomical_unit); [done |].
      unfold Rdiv. rewrite Rmult_assoc, Rinv_l by lra. lra. }
  assert (Q3 : (a / one_astronomical_unit = 1 <-> a = one_astronomical_unit)%R).
  { split; intros H.
    - apply (f_equal (fun v => v * one_astronomical_unit)%R) in H.
      unfold Rdiv in H. rewrite Rmult_assoc, Rinv_l in H by lra. lra.
    - rewrite H. unfold Rdiv. apply Rinv_r. lra. }
  set (l := ln (a / one_astronomical_unit)) in *.
  repeat split; intros H.
  - apply Q1, L3. nra.
  - apply Q1, L3 in H. nra.
  - apply Q3, L2. nra.
  - apply Q3, L2 in H. rewrite H. ring.
  - apply Q2, L1. nra.
  - apply Q2, L1 in H. nra.
Qed.

Lemma nscale_nscale (a c : R) (x : num) : nscale a (nscale c x) = nscale (a * c) x.
Proof. destruct x as [x|]; [| done]. cbn. f_equal. ring. Qed.

(** X5: the delay is linear in the mass: the delay for the mass [a * T] is
    [a] times the delay for [T], and the delay for [T1 + T2] is the sum of
    the delays for [T1] and [T2], row by row, also where the result is an
    exception or non-finite. *)
Theorem ss_obj_shapiro_delay_linear_in_mass
    (obj_pos : Quantity (list vec3)) (psr_dir : list vec3) (a T T1 T2 : R) :
  ss_obj_shapiro_delay obj_pos psr_dir (a * T)
  = (delay <- ss_obj_shapiro_delay obj_pos psr_dir T ;; Ok (map (nscale a) delay)) /\
  ss_obj_shapiro_delay obj_pos psr_dir (T1 + T2)
  = (delay1 <- ss_obj_shapiro_delay obj_pos psr_dir T1 ;;
     delay2 <- ss_obj_shapiro_delay obj_pos psr_dir T2 ;;
     Ok (zip_with nadd delay1 delay2)).
Proof.
  unfold ss_obj_shapiro_delay.
  destruct (broadcast vmul (qvalue obj_pos) psr_dir) as [prod|]; [| done].
  cbn [rbind qvalue qunit].
  destruct (broadcast Rminus _ (sum_axis1 prod)) as [diff|]; [| done].
  cbn [rbind]. set (l := numpy_log_value _). split; f_equal.
  - rewrite map_map. apply map_ext. intros x. rewrite nscale_nscale. f_equal. ring.
  - induction l as [|x l IH]; [done |]. cbn [map zip_with]. f_equal; [| done].
    destruct x as [x|]; [| done]. cbn. f_equal. ring.
Qed.

Lemma euclidean_norm_vscale (k : R) (p : vec3) :
  (0 <= k)%R -> euclidean_norm (vscale k p) = (k * euclidean_norm p)%R.
Proof.
  intros Hk. destruct p as [[x y] z]. cbn.
  replace (k * x * (k * x) + k * y * (k * y) + k * z * (k * z))%R
    with (Rsqr k * (x * x + y * y + z * z))%R by (unfold Rsqr; ring).
  rewrite sqrt_mult; [| apply Rle_0_sqr | nra]. by rewrite sqrt_Rsqr.
Qed.

Lemma dot_product_vscale (k : R) (p d : vec3) :
  dot_product (vscale k p) d = (k * dot_product p d)%R.
Proof. destruct p as [[x y] z], d as [[x' y'] z']. cbn. ring. Qed.

(** X6: the delay does not depend on the unit the positions are given in:
    positions with the values [k * p] in the unit [u] and positions with the
    values [p] in the unit [k * u] give the same result. *)
Theorem ss_obj_shapiro_delay_unit_invariant
    (u k : posreal) (ps : list vec3) (psr_dir : list vec3) (T_obj : R) :
  length ps = length psr_dir ->
  ss_obj_shapiro_delay (mkQuantity (map (vscale k) ps) u) psr_dir T_obj
  = ss_obj_shapiro_delay
      (mkQuantity ps (mkposreal (k * u) (Rmult_lt_0_compat k u (cond_pos k) (cond_pos u))))
      psr_dir T_obj.
Proof.
  intros Hlen.
  rewrite !ss_obj_shapiro_delay_rows by (cbn [qvalue]; by rewrite ?length_map).
  cbn [qvalue qunit]. f_equal.
  revert psr_dir Hlen. induction ps as [|p ps IH]; intros [|d ds] Hlen; try done.
  cbn [map zip_with]. f_equal; [| apply IH; cbn in Hlen; lia].
  unfold shapiro_formula, impact_length. cbn [pos].
  rewrite euclidean_norm_vscale, dot_product_vscale by (left; apply cond_pos).
  do 3 f_equal. ring.
Qed.

(** * Further properties of the delay function *)

(** ** When the call succeeds *)

Lemma groups_loop_sun_missing (toas : Table) (rest : list string) :
  columns toas !! "obs_sun_pos" = None ->
  forall (ii : nat) (delay : list num) (s : State),
    ii + length rest < length (groups_indices toas) ->
    (exists (j : nat) (key : string), rest !! j = Some key /\ key <> "Barycenter") ->
    groups_loop toas ii rest delay s
    = (Raise (KeyError "obs_sun_pos"),
       mkState (self_PLANET_SHAPIRO s)
         (log_records s ++ replicate (skipped_before_first rest) skip_record)).
Proof.
  intros Hnone.
  induction rest as [|key rest IH]; intros ii delay s Hii (j & key' & Hj & Hne).
  - by destruct j.
  - cbn [length] in Hii.
    destruct (lookup_lt_is_Some_2 (groups_indices toas) ii) as [lo Hlo]; [lia |].
    destruct (lookup_lt_is_Some_2 (groups_indices toas) (S ii)) as [hi Hhi]; [lia |].
    cbn [groups_loop skipped_before_first]. unfold sbind.
    rewrite (group_body_eq _ _ _ _ _ lo hi) by done.
    destruct (String.eqb key "Barycenter") eqn:Hkey.
    + rewrite IH; [| lia |].
      * cbn [self_PLANET_SHAPIRO log_records]. by rewrite <- app_assoc.
      * destruct j as [|j]; [| eauto].
        cbn in Hj. injection Hj as ->. by apply String.eqb_eq in Hkey.
    + cbn zeta. rewrite add_object_delay_missing by done. cbn [rbind].
      destruct s. cbn. by rewrite app_nil_r.
Qed.

(** X7: without the position column of the Sun, a table with a group of
    another than the barycentric observatory makes the call raise
    [KeyError] for [obs_sun_pos], whatever [PLANET_SHAPIRO] is; the log then
    holds one record for each barycentric group met before that group. *)
Theorem missing_sun_raises (toas : Table) (s : State) :
  columns toas !! "obs_sun_pos" = None ->
  length (groups_keys toas) < length (groups_indices toas) ->
  (exists (ii : nat) (key : string), groups_keys toas !! ii = Some key /\ key <> "Barycenter") ->
  solar_system_shapiro_delay toas s
  = (Raise (KeyError "obs_sun_pos"),
     mkState (self_PLANET_SHAPIRO s)
       (log_records s ++ replicate (skipped_before_first (groups_keys toas)) skip_record)).
Proof.
  intros Hnone Hlen Hgroup. unfold solar_system_shapiro_delay. cbn zeta.
  by apply groups_loop_sun_missing.
Qed.

Lemma not_all_barycenter (keys : list string) :
  ~ (forall key : string, key ∈ keys -> key = "Barycenter") ->
  exists (j : nat) (key : string), keys !! j = Some key /\ key <> "Barycenter".
Proof.
  intros H. induction keys as [|key rest IH].
  - exfalso. apply H. intros key Hkey. by apply elem_of_nil in Hkey.
  - destruct (decide (key = "Barycenter")) as [-> | Hne].
    + destruct IH as (j & key' & Hj & Hne').
      * intros Hall. apply H. intros key Hkey.
        apply elem_of_cons in Hkey as [-> | Hkey]; [done | by apply Hall].
      * exists (S j), key'. done.
    + exists 0, key. done.
Qed.

Lemma used_field_cases (flag : bool) (field : string) :
  field ∈ used_fields flag ->
  field = "obs_sun_pos" \/
  (flag = true /\ exists pl : string, pl ∈ planets /\ field = "obs_" +:+ pl +:+ "_pos").
Proof.
  intros H. unfold used_fields in H.
  apply elem_of_cons in H as [-> | H]; [by left |]. right.
  destruct flag; [| by apply elem_of_nil in H]. split; [done |].
  rewrite !elem_of_cons, elem_of_nil in H.
  destruct H as [-> | [-> | [-> | [-> | []]]]];
    [exists "jupiter" | exists "saturn" | exists "venus" | exists "uranus"];
    (split; [unfold planets; rewrite !elem_of_cons; tauto | reflexivity]).
Qed.

(** X8: on a well-formed table the call returns a vector exactly when every
    group is barycentric or every position column the call reads (the Sun's,
    and with [PLANET_SHAPIRO] true those of the four planets) is present;
    otherwise it raises. *)
Theorem delay_succeeds_iff (toas : Table) (s : State) :
  wf_table toas -> provider_ok ->
  ((exists (delay : list num) (s' : State),
      solar_system_shapiro_delay toas s = (Ok delay, s')) <->
   (forall key : string, key ∈ groups_keys toas -> key = "Barycenter") \/
   (forall field : string,
      field ∈ used_fields (value (self_PLANET_SHAPIRO s)) -> is_Some (columns toas !! field))).
Proof.
  intros Hwf Hprov.
  assert (Hlen : length (groups_keys toas) < length (groups_indices toas))
    by (rewrite (wf_indices_length _ Hwf); lia).
  unfold solar_system_shapiro_delay. cbn zeta. split.
  - intros (delay & s' & E).
    destruct (decide (Forall (fun key : string => key = "Barycenter") (groups_keys toas)))
      as [Hall | Hnot].
    { left. intros key Hkey. by apply (proj1 (Forall_forall _ _) Hall). }
    right.
    assert (Hgroup : exists (j : nat) (key : string),
               groups_keys toas !! j = Some key /\ key <> "Barycenter").
    { apply not_all_barycenter. intros Hall. apply Hnot. by apply Forall_forall. }
    intros field Hfield.
    destruct (columns toas !! field) as [c|] eqn:Hc; [by eexists |]. exfalso.
    apply used_field_cases in Hfield as [-> | (Hflag & pl & Hpl & ->)].
    + rewrite groups_loop_sun_missing in E by done. discriminate E.
    + destruct (groups_loop_missing toas pl (groups_keys toas) Hpl Hc 0
                  (replicate (len toas) (Finite 0)) s Hflag Hgroup) as (e & s1 & E').
      rewrite E' in E. discriminate E.
  - intros [Hall | Hcols].
    + rewrite groups_loop_all_barycenter by done. eauto.
    + destruct (groups_loop_ok toas (value (self_PLANET_SHAPIRO s)) (groups_keys toas)
                  Hwf Hprov Hcols 0 (replicate (len toas) (Finite 0)) s)
        as (delay & E & _); [done | cbn; lia | apply length_replicate |].
      rewrite E. eauto.
Qed.

(** ** No cross-talk between rows *)

(** X10: the delay of a row depends on the table only through the epochs of
    the group of the row and through that row of the position columns the
    call reads: two well-formed tables with the same epochs and groups whose
    used columns have the same unit and the same row [i] give the same
    delay on row [i]. *)
Theorem delay_row_local (toas toas' : Table) (s : State) :
  wf_table toas -> wf_table toas' -> provider_ok ->
  (forall field : string,
     field ∈ used_fields (value (self_PLANET_SHAPIRO s)) -> is_Some (columns toas !! field)) ->
  (forall field : string,
     field ∈ used_fields (value (self_PLANET_SHAPIRO s)) -> is_Some (columns toas' !! field)) ->
  tdbld toas' = tdbld toas ->
  groups_keys toas' = groups_keys toas ->
  groups_indices toas' = groups_indices toas ->
  exists (delay delay' : list num) (s1 s2 : State),
    solar_system_shapiro_delay toas s = (Ok delay, s1) /\
    solar_system_shapiro_delay toas' s = (Ok delay', s2) /\
    forall (ii : nat) (key : string) (lo hi i : nat),
      groups_keys toas !! ii = Some key ->
      groups_indices toas !! ii = Some lo ->
      groups_indices toas !! S ii = Some hi ->
      lo <= i < hi ->
      (forall (field : string) (c c' : Quantity (list vec3)),
         field ∈ used_fields (value (self_PLANET_SHAPIRO s)) ->
         columns toas !! field = Some c -> columns toas' !! field = Some c' ->
         qunit c' = qunit c /\ qvalue c' !! i = qvalue c !! i) ->
      delay' !! i = delay !! i.
Proof.
  intros Hwf Hwf' Hprov Hcols Hcols' Htdbld Hkeys Hind.
  destruct (groups_loop_ok toas (value (self_PLANET_SHAPIRO s)) (groups_keys toas)
              Hwf Hprov Hcols 0 (replicate (len toas) (Finite 0)) s)
    as (delay & E & _ & _ & Hrows); [done | | apply length_replicate |].
  { rewrite (wf_indices_length _ Hwf). cbn. lia. }
  destruct (groups_loop_ok toas' (value (self_PLANET_SHAPIRO s)) (groups_keys toas')
              Hwf' Hprov Hcols' 0 (replicate (len toas') (Finite 0)) s)
    as (delay' & E' & _ & _ & Hrows'); [done | | apply length_replicate |].
  { rewrite (wf_indices_length _ Hwf'). cbn. lia. }
  exists delay, delay'. eexists _, _. split; [exact E |]. split; [exact E' |].
  intros ii key lo hi i Hkey Hlo Hhi Hi Hsame.
  rewrite (Hrows ii key lo hi i), (Hrows' ii key lo hi i) by (rewrite ?Hkeys, ?Hind; done).
  unfold len. rewrite Htdbld.
  assert (Hterm : forall (field : string) (T : R),
             field ∈ used_fields (value (self_PLANET_SHAPIRO s)) ->
             object_term toas' lo hi field T i = object_term toas lo hi field T i).
  { intros field T Hfield. unfold object_term.
    destruct (Hcols field Hfield) as [c Hc]. destruct (Hcols' field Hfield) as [c' Hc'].
    rewrite Hc, Hc', Htdbld.
    destruct (Hsame field c c' Hfield Hc Hc') as [-> ->]. done. }
  destruct (replicate (length (tdbld toas)) (Finite 0) !! i) as [v|]; [| done].
  cbn. f_equal. unfold row_update, row_terms.
  destruct (String.eqb key "Barycenter"); [done |].
  unfold used_fields in Hterm.
  rewrite (Hterm "obs_sun_pos") by (rewrite !elem_of_cons; tauto).
  destruct (value (self_PLANET_SHAPIRO s)); [| done].
  rewrite (Hterm "obs_jupiter_pos"), (Hterm "obs_saturn_pos"),
    (Hterm "obs_venus_pos"), (Hterm "obs_uranus_pos")
    by (rewrite !elem_of_cons; tauto).
  done.
Qed.

End SolarSystemShapiro.

(** * The properties on the example table *)

Lemma example_wf : wf_table example_toas.
Proof.
  split.
  - reflexivity.
  - intros [|[|ii]] a b Ha Hb; cbn in Ha, Hb; try discriminate Hb;
      injection Ha as <-; injection Hb as <-; lia.
  - intros field c H. unfold example_toas in H. cbn [columns] in H.
    repeat (apply lookup_insert_Some in H as [[_ <-] | [_ H]]; [reflexivity |]).
    by rewrite lookup_empty in H.
Qed.

Lemma example_provider_ok : provider_ok example_provider.
Proof. intros epoch. unfold example_provider. apply length_map. Qed.

Lemma example_columns_present (flag : bool) (field : string) :
  field ∈ used_fields flag -> is_Some (columns example_toas !! field).
Proof.
  intros H.
  assert (H' : field ∈ used_fields true).
  { destruct flag; [done |]. unfold used_fields in H.
    apply elem_of_cons in H as [-> | H]; [apply list_elem_of_here |].
    by apply elem_of_nil in H. }
  unfold used_fields in H'. rewrite !elem_of_cons, elem_of_nil in H'.
  destruct H' as [-> | [-> | [-> | [-> | [-> | []]]]]]; by eexists.
Qed.

Lemma example_call_ok (s : State) :
  exists (delay : list num) (s' : State),
    solar_system_shapiro_delay example_provider 1 2 3 4 5 6 7 8 9 example_toas s
    = (Ok delay, s').
Proof.
  destruct (groups_loop_ok example_provider 1 2 3 4 5 6 7 8 9 example_toas
              (value (self_PLANET_SHAPIRO s)) (groups_keys example_toas)
              example_wf example_provider_ok (example_columns_present _)
              0 (replicate (len example_toas) (Finite 0)) s)
    as (delay & E & _); [done | cbn; lia | apply length_replicate |].
  eexists _, _. exact E.
Qed.

Lemma planet_shapiro_toggle_witness :
  exists (delay : list num) (s' : State),
    solar_system_shapiro_delay example_provider 1 2 3 4 5 6 7 8 9 example_toas example_state
    = (Ok delay, s').
Proof.
  destruct (planet_shapiro_toggle example_provider 1 2 3 4 5 6 7 8 9 example_toas example_state)
    as (_ & _ & H).
  destruct (H example_wf example_provider_ok (example_columns_present _))
    as (delay & s' & E & _).
  exists delay, s'. exact E.
Defined.

Lemma barycenter_skip_witness :
  exists (delay : list num) (s' : State),
    solar_system_shapiro_delay example_provider 1 2 3 4 5 6 7 8 9 example_toas example_state
    = (Ok delay, s') /\
    delay !! 0 = Some (Finite 0).
Proof.
  destruct (example_call_ok example_state) as (delay & s' & E).
  exists delay, s'. split; [exact E |].
  destruct (barycenter_skip example_provider 1 2 3 4 5 6 7 8 9 example_toas example_state)
    as (_ & H & _).
  destruct (H delay s' (wf_indices_mono _ example_wf) E) as [H0 _].
  apply (H0 0 0 1 0); [reflexivity | reflexivity | reflexivity | lia | cbn; lia].
Defined.

Lemma delay_vector_invariant_witness :
  exists (delay : list num) (s' : State),
    solar_system_shapiro_delay example_provider 1 2 3 4 5 6 7 8 9 example_toas example_state
    = (Ok delay, s') /\
    length delay = 2.
Proof.
  destruct (delay_vector_invariant example_provider 1 2 3 4 5 6 7 8 9 example_toas example_state)
    as (Hlen & Hzero & _ & H).
  destruct (H example_wf example_provider_ok (example_columns_present _)
              (replicate (len example_toas) (Finite 0)) (length_replicate _ _))
    as (delay & s' & E & _).
  rewrite <- Hzero in E.
  exists delay, s'. split; [exact E |]. exact (Hlen delay s' E).
Defined.

Lemma missing_planet_raises_witness :
  exists (e : exn) (s' : State),
    solar_system_shapiro_delay example_provider 1 2 3 4 5 6 7 8 9 example_sun_only example_state
    = (Raise e, s').
Proof.
  apply (missing_planet_raises example_provider 1 2 3 4 5 6 7 8 9
           example_sun_only example_state "jupiter").
  - reflexivity.
  - apply list_elem_of_here.
  - reflexivity.
  - exists 1, "gbt". split; [reflexivity | discriminate].
Defined.

Lemma delay_deterministic_witness :
  (solar_system_shapiro_delay example_provider 1 2 3 4 5 6 7 8 9 example_toas example_state).1
  = (solar_system_shapiro_delay example_provider 1 2 3 4 5 6 7 8 9 example_toas
       (mkState PLANET_SHAPIRO [mkLogRecord "INFO" "earlier record"])).1.
Proof.
  apply (delay_deterministic example_provider 1 2 3 4 5 6 7 8 9 example_toas
           example_state (mkState PLANET_SHAPIRO [mkLogRecord "INFO" "earlier record"])).
  reflexivity.
Defined.

Example py_slice_clamps : py_slice 1 5 [10; 20; 30] = [20; 30].
Proof. reflexivity. Qed.

Example slice_iadd_adds (a b c x : num) :
  slice_iadd [a; b; c] 1 2 [x] = Ok [a; nadd b x; c].
Proof. reflexivity. Qed.

Example slice_iadd_shape_error (a b c x y : num) :
  slice_iadd [a; b; c] 1 2 [x; y] = Raise ValueError.
Proof. reflexivity. Qed.

Example example_sun_only_key_error :
  (solar_system_shapiro_delay example_provider 1 2 3 4 5 6 7 8 9 example_sun_only example_state).1
  = Raise (KeyError "obs_jupiter_pos").
Proof. reflexivity. Qed.

Example example_sun_only_log :
  log_records
    (solar_system_shapiro_delay example_provider 1 2 3 4 5 6 7 8 9 example_sun_only example_state).2
  = [mkLogRecord "INFO" "Skipping Shapiro delay for Barycentric TOAs"].
Proof. reflexivity. Qed.

(** * The window of pintk.py *)

Lemma visible_keys_cons (key : string) (var : Z) (rest : list (string * Z)) :
  visible_keys ((key, var) :: rest)
  = if Z.eqb var 0 then visible_keys rest else key :: visible_keys rest.
Proof. unfold visible_keys. cbn. by destruct (Z.eqb var 0). Qed.

Lemma visible_keys_subset (items : list (string * Z)) (key : string) :
  key ∈ visible_keys items -> key ∈ map fst items.
Proof.
  induction items as [|[k v] rest IH]; [done |].
  rewrite visible_keys_cons. cbn [map fst].
  destruct (Z.eqb v 0); rewrite ?elem_of_cons; intros H.
  - right. by apply IH.
  - destruct H as [-> | H]; [by left | right; by apply IH].
Qed.

Lemma layout_loop_active (items : list (string * Z)) :
  forall (visible : nat) (g : PINTk), active (layout_loop items visible g) = active g.
Proof.
  induction items as [|[k v] rest IH]; intros visible g; [done |].
  cbn [layout_loop]. destruct (Z.eqb v 0); [apply IH |].
  unfold cell_of. by rewrite IH.
Qed.

(** What the loop leaves on the grid, and the weights it sets. *)
Lemma layout_loop_gridded (items : list (string * Z)) :
  NoDup (map fst items) ->
  forall (visible : nat) (g : PINTk),
    let g' := layout_loop items visible g in
    (forall (j : nat) (key : string),
       visible_keys items !! j = Some key ->
       gridded g' !! key = Some (cell_of (visible + j)) /\
       (cell_of (visible + j)).1 ∈ row_weights g' /\
       (cell_of (visible + j)).2 ∈ column_weights g') /\
    (forall key : string, key ∉ visible_keys items -> gridded g' !! key = gridded g !! key) /\
    row_weights g ⊆ row_weights g' /\ column_weights g ⊆ column_weights g'.
Proof.
  induction items as [|[k v] rest IH]; intros Hnd visible g.
  - cbn. split; [intros j key H; by destruct j | done].
  - cbn [map fst] in Hnd. apply NoDup_cons in Hnd as [Hk Hnd].
    cbn zeta. cbn [layout_loop]. rewrite visible_keys_cons.
    destruct (Z.eqb v 0).
    + apply (IH Hnd).
    + unfold cell_of at 1.
      set (g1 := mkPINTk _ _ _ _).
      destruct (IH Hnd (S visible) g1) as (Ha & Hb & Hr & Hc).
      assert (Hk' : k ∉ visible_keys rest).
      { intros H. by apply Hk, visible_keys_subset. }
      split; [| split; [| split]].
      * intros [|j] key Hj.
        -- cbn in Hj. injection Hj as <-. rewrite Nat.add_0_r.
           split; [| split].
           ++ rewrite Hb by done. unfold g1. cbn [gridded]. apply lookup_insert_eq.
           ++ apply Hr. unfold g1. cbn [row_weights cell_of fst].
              apply elem_of_union_l, elem_of_singleton. done.
           ++ apply Hc. unfold g1. cbn [column_weights cell_of snd].
              apply elem_of_union_l, elem_of_singleton. done.
        -- cbn in Hj. rewrite Nat.add_succ_r. by apply Ha.
      * intros key Hkey. apply not_elem_of_cons in Hkey as [Hne Hkey].
        rewrite Hb by done. unfold g1. cbn [gridded]. by apply lookup_insert_ne.
      * etransitivity; [| exact Hr]. unfold g1. cbn [row_weights]. apply union_subseteq_r.
      * etransitivity; [| exact Hc]. unfold g1. cbn [column_weights]. apply union_subseteq_r.
Qed.

Lemma cell_of_inj (j j' : nat) : cell_of j = cell_of j' -> j = j'.
Proof.
  unfold cell_of. intros H.
  assert (H1 : j / maxcols = j' / maxcols) by congruence.
  assert (H2 : j mod maxcols = j' mod maxcols) by congruence.
  rewrite (Nat.div_mod_eq j maxcols), (Nat.div_mod_eq j' maxcols), H1, H2. done.
Qed.

Lemma visible_keys_NoDup (items : list (string * Z)) :
  NoDup (map fst items) -> NoDup (visible_keys items).
Proof.
  induction items as [|[k v] rest IH]; intros Hnd; [apply NoDup_nil_2 |].
  cbn [map fst] in Hnd. apply NoDup_cons in Hnd as [Hk Hnd].
  rewrite visible_keys_cons. destruct (Z.eqb v 0); [by apply IH |].
  apply NoDup_cons. split; [| by apply IH].
  intros H. by apply Hk, visible_keys_subset.
Qed.

Lemma updateLayout_gridded (g : PINTk) :
  NoDup (map fst (active g)) ->
  forall (key : string) (cell : nat * nat),
    gridded (updateLayout g) !! key = Some cell <->
    exists j : nat, visible_keys (active g) !! j = Some key /\ cell = cell_of j.
Proof.
  intros Hnd key cell. unfold updateLayout.
  set (g0 := mkPINTk (active g) ∅ (row_weights g) (column_weights g)).
  destruct (layout_loop_gridded (active g) Hnd 0 g0) as (Ha & Hb & _ & _).
  cbn zeta in Ha, Hb. split.
  - intros H. destruct (decide (key ∈ visible_keys (active g))) as [Hin | Hout].
    + apply list_elem_of_lookup in Hin as [j Hj]. exists j. split; [done |].
      destruct (Ha j key Hj) as [Hg _]. cbn in Hg. congruence.
    + rewrite Hb in H by done. unfold g0 in H. cbn in H. by rewrite lookup_empty in H.
  - intros (j & Hj & ->). by destruct (Ha j key Hj) as [Hg _].
Qed.

(** X11: after [updateLayout] a widget is on the grid exactly when its
    variable is not zero; the visible widgets fill the cells of a grid of two
    columns row by row, in the order of the dictionary, so no two of them
    share a cell; the row and the column of every occupied cell have the
    weight one; and the variables are left as they were. *)
Theorem updateLayout_cells (g : PINTk) :
  NoDup (map fst (active g)) ->
  (forall (key : string) (cell : nat * nat),
     gridded (updateLayout g) !! key = Some cell <->
     exists j : nat, visible_keys (active g) !! j = Some key /\ cell = cell_of j) /\
  (forall (key key' : string) (cell : nat * nat),
     gridded (updateLayout g) !! key = Some cell ->
     gridded (updateLayout g) !! key' = Some cell -> key = key') /\
  (forall (key : string) (row col : nat),
     gridded (updateLayout g) !! key = Some (row, col) ->
     col < maxcols /\
     row ∈ row_weights (updateLayout g) /\ col ∈ column_weights (updateLayout g)) /\
  active (updateLayout g) = active g.
Proof.
  intros Hnd. unfold updateLayout.
  set (g0 := mkPINTk (active g) ∅ (row_weights g) (column_weights g)).
  destruct (layout_loop_gridded (active g) Hnd 0 g0) as (Ha & Hb & _ & _).
  cbn zeta in Ha, Hb.
  pose proof (updateLayout_gridded g Hnd) as Hiff. unfold updateLayout in Hiff. fold g0 in Hiff.
  split; [exact Hiff |]. split; [| split].
  - intros key key' cell H H'.
    apply Hiff in H as (j & Hj & ->). apply Hiff in H' as (j' & Hj' & Heq).
    apply cell_of_inj in Heq as ->. congruence.
  - intros key row col H. apply Hiff in H as (j & Hj & Heq).
    destruct (Ha j key Hj) as (_ & Hr & Hc). cbn [Nat.add] in Hr, Hc.
    rewrite <- Heq in Hr, Hc. cbn [fst snd] in Hr, Hc.
    split; [| done].
    assert (Hcol : col = j mod maxcols) by (unfold cell_of in Heq; congruence).
    rewrite Hcol. apply Nat.mod_upper_bound. done.
  - rewrite layout_loop_active. done.
Qed.

Lemma dict_get_set_eq (key : string) (v v' : Z) (d : list (string * Z)) :
  dict_get key d = Some v -> dict_get key (dict_set key v' d) = Some v'.
Proof.
  induction d as [|[k w] rest IH]; [done |]. cbn.
  destruct (String.eqb k key) eqn:E; cbn; rewrite E; [done | exact IH].
Qed.

Lemma dict_get_set_ne (key k : string) (v' : Z) (d : list (string * Z)) :
  k <> key -> dict_get k (dict_set key v' d) = dict_get k d.
Proof.
  intros Hne. induction d as [|[k0 w] rest IH]; [done |]. cbn.
  destruct (String.eqb k0 key) eqn:E; cbn.
  - apply String.eqb_eq in E as ->.
    by rewrite (proj2 (String.eqb_neq key k)) by done.
  - by rewrite IH.
Qed.

Lemma dict_set_keys (key : string) (v : Z) (d : list (string * Z)) :
  map fst (dict_set key v d) = map fst d.
Proof.
  induction d as [|[k w] rest IH]; [done |]. cbn.
  destruct (String.eqb k key); cbn; [done | by rewrite IH].
Qed.

Lemma dict_set_back (key : string) (v v' : Z) (d : list (string * Z)) :
  dict_get key d = Some v -> dict_set key v (dict_set key v' d) = d.
Proof.
  induction d as [|[k w] rest IH]; [done |]. cbn.
  destruct (String.eqb k key) eqn:E; cbn; rewrite E.
  - by intros [= ->].
  - intros H. by rewrite IH.
Qed.

Lemma visible_keys_dict_get (key : string) (d : list (string * Z)) :
  NoDup (map fst d) ->
  (key ∈ visible_keys d <-> exists v : Z, dict_get key d = Some v /\ v <> 0%Z).
Proof.
  induction d as [|[k w] rest IH]; intros Hnd.
  - cbn. split; [intros H; by apply elem_of_nil in H | by intros (v & H & _)].
  - cbn [map fst] in Hnd. apply NoDup_cons in Hnd as [Hk Hnd].
    rewrite visible_keys_cons. cbn [dict_get].
    destruct (String.eqb k key) eqn:E.
    + apply String.eqb_eq in E as ->.
      destruct (Z.eqb_spec w 0) as [-> | Hw].
      * split; [| by intros (v & [= <-] & Hv)].
        intros H. by apply visible_keys_subset in H.
      * split; [by eauto | intros _; apply list_elem_of_here].
    + apply String.eqb_neq in E.
      destruct (Z.eqb w 0); [by apply IH |].
      rewrite elem_of_cons. rewrite <- (IH Hnd). split; [| by right].
      intros [-> | H]; done.
Qed.

Lemma layout_loop_gridded_ext (items : list (string * Z)) :
  forall (visible : nat) (g g' : PINTk),
    gridded g = gridded g' ->
    gridded (layout_loop items visible g) = gridded (layout_loop items visible g').
Proof.
  induction items as [|[k w] rest IH]; intros visible g g' H; [done |].
  cbn [layout_loop]. destruct (Z.eqb w 0); [by apply IH |].
  unfold cell_of. apply IH. cbn. by rewrite H.
Qed.

(** X12: [toggle] on a key of the dictionary whose variable is 0 or 1 flips
    the visibility of that widget and of no other; toggling the same key
    again gives back the variables and the grid that [updateLayout] makes of
    the first state, while the weights of rows and columns once set are
    never taken back. *)
Theorem toggle_flips (g : PINTk) (key : string) (v : Z) :
  NoDup (map fst (active g)) ->
  dict_get key (active g) = Some v ->
  (v = 0 \/ v = 1)%Z ->
  exists g1 g2 : PINTk,
    toggle key g = Ok g1 /\ toggle key g1 = Ok g2 /\
    (is_Some (gridded g1 !! key) <-> v = 0%Z) /\
    (forall k : string,
       k <> key ->
       (is_Some (gridded g1 !! k) <-> is_Some (gridded (updateLayout g) !! k))) /\
    active g2 = active g /\
    gridded g2 = gridded (updateLayout g) /\
    row_weights g ⊆ row_weights g2 /\ column_weights g ⊆ column_weights g2.
Proof.
  intros Hnd Hget Hv.
  set (v' := ((v + 1) mod 2)%Z).
  assert (Hv' : (v' = 1 - v)%Z) by (unfold v'; destruct Hv as [-> | ->]; reflexivity).
  set (h1 := mkPINTk (dict_set key v' (active g)) (gridded g) (row_weights g) (column_weights g)).
  assert (Hnd1 : NoDup (map fst (active h1))) by (unfold h1; cbn; by rewrite dict_set_keys).
  assert (Hon : forall (h : PINTk) (k : string),
             NoDup (map fst (active h)) ->
             (is_Some (gridded (updateLayout h) !! k) <->
              exists w : Z, dict_get k (active h) = Some w /\ w <> 0%Z)).
  { intros h k Hh. rewrite <- (visible_keys_dict_get k (active h) Hh). split.
    - intros [cell H]. apply (updateLayout_gridded h Hh) in H as (j & Hj & _).
      apply list_elem_of_lookup. eauto.
    - intros H. apply list_elem_of_lookup in H as [j Hj].
      exists (cell_of j). apply (updateLayout_gridded h Hh). eauto. }
  exists (updateLayout h1).
  set (g1 := updateLayout h1).
  assert (Hact1 : active g1 = dict_set key v' (active g)).
  { unfold g1, updateLayout. by rewrite layout_loop_active. }
  assert (Hget1 : dict_get key (active g1) = Some v').
  { rewrite Hact1. by apply (dict_get_set_eq key v). }
  set (h2 := mkPINTk (dict_set key ((v' + 1) mod 2)%Z (active g1)) (gridded g1)
               (row_weights g1) (column_weights g1)).
  assert (Hback : ((v' + 1) mod 2 = v)%Z).
  { rewrite Hv'. destruct Hv as [-> | ->]; reflexivity. }
  assert (Hact2 : active h2 = active g).
  { unfold h2. cbn [active]. rewrite Hback, Hact1. by apply dict_set_back. }
  exists (updateLayout h2).
  split; [unfold toggle; by rewrite Hget |].
  split; [unfold toggle; by rewrite Hget1 |].
  split; [| split; [| split; [| split]]].
  - unfold g1. rewrite (Hon h1 key Hnd1). unfold h1. cbn [active].
    rewrite (dict_get_set_eq key v) by done. split.
    + intros (w & [= <-] & Hw). lia.
    + intros ->. exists v'. split; [done |]. rewrite Hv'. lia.
  - intros k Hk. unfold g1. rewrite (Hon h1 k Hnd1), (Hon g k Hnd).
    unfold h1. cbn [active]. by rewrite dict_get_set_ne.
  - unfold updateLayout. by rewrite layout_loop_active.
  - unfold updateLayout. rewrite Hact2. by apply layout_loop_gridded_ext.
  - unfold updateLayout.
    destruct (layout_loop_gridded (active h2)) with (visible := 0)
      (g := mkPINTk (active h2) ∅ (row_weights h2) (column_weights h2))
      as (_ & _ & Hr2 & Hc2); [by rewrite Hact2 |].
    destruct (layout_loop_gridded (active h1)) with (visible := 0)
      (g := mkPINTk (active h1) ∅ (row_weights h1) (column_weights h1))
      as (_ & _ & Hr1 & Hc1); [done |].
    cbn zeta in Hr1, Hc1, Hr2, Hc2. cbn [row_weights column_weights] in Hr1, Hc1, Hr2, Hc2.
    split; (etransitivity; [| first [exact Hr2 | exact Hc2]]);
      unfold h2; cbn [row_weights column_weights]; unfold g1, updateLayout;
      first [exact Hr1 | exact Hc1].
Qed.

Lemma toggle_flips_witness :
  exists g1 g2 : PINTk,
    toggle "par" (mkPINTk [("plk", 1); ("par", 0); ("tim", 0)]%Z ∅ ∅ ∅) = Ok g1 /\
    toggle "par" g1 = Ok g2 /\
    active g2 = [("plk", 1); ("par", 0); ("tim", 0)]%Z.
Proof.
  destruct (toggle_flips (mkPINTk [("plk", 1); ("par", 0); ("tim", 0)]%Z ∅ ∅ ∅) "par" 0)
    as (g1 & g2 & H1 & H2 & _ & _ & H3 & _).
  - cbn. repeat (apply NoDup_cons; split; [rewrite ?elem_of_cons, ?elem_of_nil; intros H; intuition discriminate |]).
    apply NoDup_nil_2.
  - reflexivity.
  - by left.
  - exists g1, g2. split; [exact H1 |]. split; [exact H2 | exact H3].
Defined.

Lemma updateLayout_cells_witness :
  gridded (updateLayout (mkPINTk [("plk", 1); ("par", 0); ("tim", 1)]%Z ∅ ∅ ∅)) !! "tim"
  = Some (0, 1).
Proof.
  apply (updateLayout_cells (mkPINTk [("plk", 1); ("par", 0); ("tim", 1)]%Z ∅ ∅ ∅)).
  - cbn. repeat (apply NoDup_cons; split; [rewrite ?elem_of_cons, ?elem_of_nil; intros H; intuition discriminate |]).
    apply NoDup_nil_2.
  - exists 1. split; reflexivity.
Defined.

(** * The further properties on examples *)

Lemma ss_obj_shapiro_delay_sign_witness :
  exists delay : list num,
    ss_obj_shapiro_delay (mkQuantity [(0, 1, 0)%R] metre) [(1, 0, 0)%R] 1 = Ok delay.
Proof.
  destruct (ss_obj_shapiro_delay_sign
              (mkQuantity [(0, 1, 0)%R] metre) [(1, 0, 0)%R] 1 eq_refl)
    as (delay & H & _).
  - lra.
  - exists delay. exact H.
Defined.

Lemma ss_obj_shapiro_delay_unit_invariant_witness :
  ss_obj_shapiro_delay (mkQuantity (map (vscale metre) [(0, 1, 0)%R]) metre) [(1, 0, 0)%R] 1
  = ss_obj_shapiro_delay
      (mkQuantity [(0, 1, 0)%R]
         (mkposreal (metre * metre)
            (Rmult_lt_0_compat metre metre (cond_pos metre) (cond_pos metre))))
      [(1, 0, 0)%R] 1.
Proof.
  apply (ss_obj_shapiro_delay_unit_invariant metre metre [(0, 1, 0)%R] [(1, 0, 0)%R] 1).
  reflexivity.
Defined.

Lemma missing_sun_raises_witness :
  solar_system_shapiro_delay example_provider 1 2 3 4 5 6 7 8 9
    (with_columns example_toas ∅) example_state
  = (Raise (KeyError "obs_sun_pos"),
     mkState PLANET_SHAPIRO [mkLogRecord "INFO" "Skipping Shapiro delay for Barycentric TOAs"]).
Proof.
  apply (missing_sun_raises example_provider 1 2 3 4 5 6 7 8 9
           (with_columns example_toas ∅) example_state).
  - reflexivity.
  - cbn. lia.
  - exists 1, "gbt". split; [reflexivity | discriminate].
Defined.

Lemma delay_succeeds_iff_witness :
  exists (delay : list num) (s' : State),
    solar_system_shapiro_delay example_provider 1 2 3 4 5 6 7 8 9 example_toas example_state
    = (Ok delay, s').
Proof.
  apply (delay_succeeds_iff example_provider 1 2 3 4 5 6 7 8 9 example_toas example_state
           example_wf example_provider_ok).
  right. apply example_columns_present.
Defined.

Lemma delay_row_local_witness :
  exists (delay : list num) (s' : State),
    solar_system_shapiro_delay example_provider 1 2 3 4 5 6 7 8 9 example_toas example_state
    = (Ok delay, s').
Proof.
  destruct (delay_row_local example_provider 1 2 3 4 5 6 7 8 9
              example_toas example_toas example_state
              example_wf example_wf example_provider_ok
              (example_columns_present _) (example_columns_present _)
              eq_refl eq_refl eq_refl)
    as (delay & _ & s1 & _ & E & _).
  exists delay, s1. exact E.
Defined.
